(** * ersatz: the JSDOM backend of the WebView test double

    A shallow embedding of [src/JSDOMBackend.tsx]: the function [initDOM],
    which builds a headless DOM and wires its lifecycle events to the
    host's callbacks, and the React component [JSDOMBackend], which owns
    one DOM per load cycle and exposes an imperative handle.

    The headless DOM engine (jsdom) and React are external.  The engine
    enters the development through two parameters (what a script does,
    what parsing a markup does) and through the events it fires, for each
    document [DOMContentLoaded] and then [load], once each; React through
    the usual reading of hooks: state cells written by setters, closures
    that capture the values of the render that created them, and memo
    cells recomputed when a dependency changes.  The callbacks of the host
    are opaque: a call is recorded with its argument and returns.  The
    load cycle is a natural number, as the JavaScript number is while it
    counts up from 0. *)

From stdpp Require Import base decidable option list strings pretty gmap.

Local Open Scope string_scope.
Local Open Scope list_scope.

(** ** Values and objects of the page *)

Module Dom.

(** JavaScript values a page can hand to the bridge. [typeof v] is
    ['string'] for [JString] only. *)
Inductive jsval :=
| JString (s : string)
| JNumber (n : Z)
| JBool (b : bool)
| JNull
| JUndefined
| JObject.

Definition is_string (v : jsval) : bool :=
  match v with JString _ => true | _ => false end.

(** What script code running in a page can do that the backend can see:
    change the document or the location, leave a value on the window, or
    call one of the two message functions. *)
Inductive page_op :=
| SetTitle (t : string)                 (* document.title = t *)
| PushState (u : string)                (* history.pushState(.., .., u) *)
| SetGlobal (k : string) (v : jsval)    (* window[k] = v *)
| PostMessage (v : jsval)               (* window.postMessage(v) *)
| RNPostMessage (v : jsval).            (* window.ReactNativeWebView.postMessage(v) *)

(** Who answers [window.postMessage]: the engine's own implementation, or
    the closure [postMessage] of [initDOM]. *)
Inductive message_fn := EnginePostMessage | BridgePostMessage.

Record Location := { href : string }.
Record Document := { title : string }.

Record Window := {
  location : Location;
  document : Document;
  globals : gmap string jsval;
  postMessage : message_fn;
  ReactNativeWebView : option message_fn
}.

(** [document.readyState] *)
Inductive ReadyState := loading_doc | interactive | complete.

(** The window of a JSDOM under construction, as [beforeParse] receives
    it: the location is the configured URL (jsdom's default otherwise),
    the document is still empty. *)
Definition fresh (u : option string) : Window :=
  {| location := {| href := default "about:blank" u |};
     document := {| title := "" |};
     globals := ∅;
     postMessage := EnginePostMessage;
     ReactNativeWebView := None |}.

Definition set_title (t : string) (w : Window) : Window :=
  {| location := location w; document := {| title := t |};
     globals := globals w; postMessage := postMessage w;
     ReactNativeWebView := ReactNativeWebView w |}.

Definition set_href (u : string) (w : Window) : Window :=
  {| location := {| href := u |}; document := document w;
     globals := globals w; postMessage := postMessage w;
     ReactNativeWebView := ReactNativeWebView w |}.

Definition set_global (k : string) (v : jsval) (w : Window) : Window :=
  {| location := location w; document := document w;
     globals := <[k := v]> (globals w); postMessage := postMessage w;
     ReactNativeWebView := ReactNativeWebView w |}.

(** [window.postMessage = f; window.ReactNativeWebView = { postMessage: f }] *)
Definition install_bridge (w : Window) : Window :=
  {| location := location w; document := document w;
     globals := globals w; postMessage := BridgePostMessage;
     ReactNativeWebView := Some BridgePostMessage |}.

End Dom.

(** ** Events handed to the host *)

Module Event.

(** The object literal each event is made from: [url] and [title] come
    from [eventBase], the other keys are present in some events only. *)
Record NativeEvent := {
  url : string;
  title : string;
  loading : option bool;
  navigationType : option string;
  progress : option nat;
  data : option string
}.

Record SyntheticEvent := { nativeEvent : NativeEvent }.

(** Modelled from the spec: [createNativeEvent] of [./events], which is
    not among the sources.  The spec calls its result a synthetic
    navigation-style event wrapping the payload, and [initDOM] reads the
    payload back as [.nativeEvent]. *)
Definition createNativeEvent (e : NativeEvent) : SyntheticEvent :=
  {| nativeEvent := e |}.

(** What a callback receives: a wrapped event, or, for
    [onNavigationStateChange], the bare payload. *)
Inductive payload :=
| Wrapped (e : SyntheticEvent)
| Bare (e : NativeEvent).

End Event.

Import Event.

(** ** Functions, exceptions, effects *)

(** Modelled from the spec: [BackendState] of [./types], which is not
    among the sources; the spec calls it a two-valued status, loading or
    loaded, and the component compares it with ['loaded']. *)
Inductive BackendState := loading_state | loaded.

(** Function values that reach a callback parameter of [initDOM]: a
    function of the host, known by its identity, or the closure
    [onLoad] that the component builds around the host's [onLoad]
    (lines 147-153), known by the function it closes over. *)
Inductive fn :=
| Host (id : nat)
| BackendOnLoad (userOnLoad : option nat).

Inductive exn :=
| Error (msg : string)
| ReferenceError (msg : string)
| TypeError (msg : string).

Inductive Slot :=
| SlotMessage | SlotLoadStart | SlotLoadProgress | SlotLoad | SlotLoadEnd
| SlotNavigationStateChange.

(** What the backend's code does to the world outside the window it runs
    against, in the order it happens.  A callback of the host is opaque:
    its call is recorded with its argument, and it is taken to return. *)
Inductive effect :=
| Called (s : Slot) (f : nat) (arg : payload)   (* a host callback is invoked *)
| Eval (script : string)                        (* window.eval(script) is entered *)
| SetBackendState (s : BackendState)            (* the state setters of the component *)
| SetLoadCycleId (n : nat)
| Warn (msg : string)                           (* console.warn *)
| Raised (e : exn).                             (* an exception leaves the backend's code *)

(** Modelled from the spec: [DOMHandlers] of [./types], which is not
    among the sources; its six fields are the callbacks [initDOM] takes
    from it, each optional.  [F] is the type of function values:
    identities of host functions in the props of the component, [fn] in
    the parameters of [initDOM]. *)
Record DOMHandlers (F : Type) := {
  onMessage : option F;
  onLoad : option F;
  onLoadStart : option F;
  onLoadProgress : option F;
  onLoadEnd : option F;
  onNavigationStateChange : option F
}.
Arguments onMessage {F} _.
Arguments onLoad {F} _.
Arguments onLoadStart {F} _.
Arguments onLoadProgress {F} _.
Arguments onLoadEnd {F} _.
Arguments onNavigationStateChange {F} _.

Record InitDOMParams := {
  html : string;
  url : option string;
  injectedJavaScriptBeforeContentLoaded : option string;
  injectedJavascript : option string;
  javaScriptEnabled : option bool;
  userAgent : option string;
  handlers : DOMHandlers fn;
  loadCycleId : nat
}.

#[global] Instance fn_eq_dec : EqDecision fn.
Proof. solve_decision. Defined.
#[global] Instance BackendState_eq_dec : EqDecision BackendState.
Proof. solve_decision. Defined.
#[global] Instance Slot_eq_dec : EqDecision Slot.
Proof. solve_decision. Defined.
#[global] Instance DOMHandlers_eq_dec `{EqDecision F} : EqDecision (DOMHandlers F).
Proof. solve_decision. Defined.
#[global] Instance InitDOMParams_eq_dec : EqDecision InitDOMParams.
Proof. solve_decision. Defined.

(** JavaScript truthiness of an optional string and of an optional
    boolean: [undefined], the empty string and [false] are falsy. *)
Definition truthy_string (s : option string) : option string :=
  match s with
  | Some s => if decide (s = "") then None else Some s
  | None => None
  end.

Definition truthy_bool (b : option bool) : bool := default false b.

(** ** The monad of backend code

    Code of the backend runs against one window, which scripts may change,
    appends to the log of effects, and may throw. *)

Inductive result (A : Type) :=
| Ok (a : A)
| Throw (e : exn).
Arguments Ok {A} a.
Arguments Throw {A} e.

Record St := { st_window : Dom.Window; st_log : list effect }.

Definition M (A : Type) : Type := St → St * result A.

Definition ret {A} (a : A) : M A := λ s, (s, Ok a).
Definition throw {A} (e : exn) : M A := λ s, (s, Throw e).
Definition bind {A B} (m : M A) (k : A → M B) : M B :=
  λ s, match m s with
       | (s', Ok a) => k a s'
       | (s', Throw e) => (s', Throw e)
       end.
Definition emit (es : list effect) : M unit :=
  λ s, ({| st_window := st_window s; st_log := st_log s ++ es |}, Ok tt).
Definition get_window : M Dom.Window := λ s, (s, Ok (st_window s)).
Definition modify_window (f : Dom.Window → Dom.Window) : M unit :=
  λ s, ({| st_window := f (st_window s); st_log := st_log s |}, Ok tt).

Notation "'let!' x ':=' m 'in' k" := (bind m (λ x, k))
  (at level 10, x pattern, m at level 100, k at level 200).
Notation "m '>>' k" := (bind m (λ _, k))
  (at level 100, k at level 200, right associativity).

(** Calling a function value [f] that sits in slot [s].  The closure of
    the component (lines 147-153) sets the state and then calls the host's
    [onLoad], if there is one. *)
Definition call (s : Slot) (f : fn) (arg : payload) : list effect :=
  match f with
  | Host id => [Called s id arg]
  | BackendOnLoad userOnLoad =>
      SetBackendState loaded ::
      match userOnLoad with
      | Some id => [Called SlotLoad id arg]
      | None => []
      end
  end.

(** [typeof f === 'function' && f(arg)] *)
Definition guarded (s : Slot) (f : option fn) (arg : payload) : M unit :=
  match f with
  | Some f => emit (call s f arg)
  | None => ret tt
  end.

(** ** The component: props, hook cells, handle *)

Module Props.

Record DOMBackendProps := {
  html : string;
  url : string;
  injectedJavascript : option string;
  injectedJavaScriptBeforeContentLoaded : option string;
  javaScriptEnabled : option bool;
  userAgent : option string;
  domHandlers : DOMHandlers nat
}.

End Props.

(** A JSDOM object: its live window, the ready state of its document,
    and the parameters captured by the closures registered on it. *)
Record JSDOM := {
  window : Dom.Window;
  readyState : Dom.ReadyState;
  env : InitDOMParams
}.

(** The object given to [useImperativeHandle] (lines 187-210): the
    property [dom], and methods whose closures captured [dom],
    [loadCycleId] and [backendState] of the render that built it. *)
Record Handle := {
  dom : nat;
  captured_loadCycleId : nat;
  captured_backendState : BackendState
}.

Inductive Method :=
| Reload
| StopLoading
| GoBack
| GoForward
| InjectJavascript (script : string).

(** The hook cells of a mounted component: the two [useState] cells, the
    [useMemo] cell with the dependencies it was computed for, and
    [ref.current]. *)
Record Component := {
  backendState : BackendState;
  loadCycleId_cell : nat;
  memo_deps : InitDOMParams;
  memo_dom : nat;
  ref : Handle
}.

(** The component and its surroundings: every JSDOM object built so far
    (its position is its identity; objects of earlier load cycles stay
    alive), the hook cells, what happened so far and on behalf of which
    DOM, and whether a render threw. *)
Record World := {
  doms : list JSDOM;
  comp : Component;
  log : list (nat * effect);
  crashed : option exn
}.

(** What happens to a mounted component. *)
Inductive input :=
| FireDOMContentLoaded (d : nat)                 (* the engine, on DOM [d] *)
| FireLoad (d : nat)
| PageScript (d : nat) (ops : list Dom.page_op)  (* script code of the page of [d] *)
| Render (props : Props.DOMBackendProps)         (* React renders the component *)
| Invoke (h : Handle) (m : Method)               (* the host calls a handle it holds *)
| InvokeCurrent (m : Method).                    (* the host calls [ref.current] *)

(** ** [initDOM] *)

(** The engine: what evaluating a script does, as the operations it
    performs in order, and what parsing a markup does to the window
    (with or without running the markup's own scripts). *)
Record Engine := {
  interp : string → list Dom.page_op;
  parse : bool → string → Dom.Window → Dom.Window
}.

Section Backend.

Variable engine : Engine.

Section Closures.

Variable p : InitDOMParams.

(** The binding [const dom] is written when the JSDOM constructor
    returns; code that runs inside the constructor finds it
    uninitialised.  [bound] tells which. *)
Definition dom_window (bound : bool) : M Dom.Window :=
  if bound then get_window
  else throw (ReferenceError "Cannot access 'dom' before initialization").

(** The getters of [eventBase] (lines 53-60). *)
Definition eventBase_url (bound : bool) : M string :=
  let! w := dom_window bound in ret (Dom.href (Dom.location w)).

Definition eventBase_title (bound : bool) : M string :=
  let! w := dom_window bound in ret (Dom.title (Dom.document w)).

(** [{ ...eventBase, k: v, ... }]: the spread calls both getters, then
    the remaining keys are added. *)
Definition spread_eventBase (bound : bool) (l : option bool)
    (nt : option string) (pr : option nat) (d : option string)
  : M NativeEvent :=
  let! u := eventBase_url bound in
  let! t := eventBase_title bound in
  ret {| Event.url := u; title := t; loading := l; navigationType := nt;
         progress := pr; data := d |}.

(** [postMessage] (lines 61-67). *)
Definition postMessage (bound : bool) (message : Dom.jsval) : M unit :=
  match message with
  | Dom.JString s =>
      match onMessage (handlers p) with
      | Some f =>
          let! e := spread_eventBase bound None None None (Some s) in
          emit (call SlotMessage f (Wrapped (createNativeEvent e)))
      | None => ret tt
      end
  | _ => throw (Error "WebView: the argument of postMessage must be a string")
  end.

(** One operation of a page script.  The two message functions are
    looked up on the window at the time of the call. *)
Definition exec_op (bound : bool) (op : Dom.page_op) : M unit :=
  match op with
  | Dom.SetTitle t => modify_window (Dom.set_title t)
  | Dom.PushState u => modify_window (Dom.set_href u)
  | Dom.SetGlobal k v => modify_window (Dom.set_global k v)
  | Dom.PostMessage v =>
      let! w := get_window in
      match Dom.postMessage w with
      | Dom.BridgePostMessage => postMessage bound v
      | Dom.EnginePostMessage => ret tt
      end
  | Dom.RNPostMessage v =>
      let! w := get_window in
      match Dom.ReactNativeWebView w with
      | Some Dom.BridgePostMessage => postMessage bound v
      | Some Dom.EnginePostMessage => ret tt
      | None => throw (TypeError "Cannot read property 'postMessage' of undefined")
      end
  end.

(** A script runs its operations in order; the first exception ends it. *)
Fixpoint exec_ops (bound : bool) (ops : list Dom.page_op) : M unit :=
  match ops with
  | [] => ret tt
  | op :: ops => exec_op bound op >> exec_ops bound ops
  end.

(** [window.eval(script)] *)
Definition window_eval (bound : bool) (script : string) : M unit :=
  emit [Eval script] >> exec_ops bound (interp engine script).

(** [beforeParse(window)] (lines 73-81), called by the constructor. *)
Definition beforeParse : M unit :=
  modify_window Dom.install_bridge >>
  match truthy_string (injectedJavaScriptBeforeContentLoaded p) with
  | Some s => window_eval false s
  | None => ret tt
  end.

(** [new JSDOM(html, {...})] (lines 68-82): [beforeParse], then the
    markup is parsed, all before the constructor returns.  A script of
    the markup that posts a message while the markup is parsed meets the
    same unbound [dom] as a script of [beforeParse]; what it raises stays
    in the page, where the engine reports it, so no callback is reached
    and [parse] gives the window as parsing leaves it. *)
Definition new_JSDOM : M unit :=
  beforeParse >>
  modify_window (parse engine (truthy_bool (javaScriptEnabled p)) (html p)).

(** The listener of [DOMContentLoaded] (lines 83-87). *)
Definition onDOMContentLoaded : M unit :=
  if truthy_bool (javaScriptEnabled p) then
    match truthy_string (injectedJavascript p) with
    | Some s => window_eval true s
    | None => ret tt
    end
  else ret tt.

(** The listener of [load] (lines 88-102). *)
Definition onLoadListener : M unit :=
  let! loadEvent := spread_eventBase true None (Some "other") None None in
  let! loadProgress := spread_eventBase true None None (Some 1) None in
  guarded SlotLoadProgress (onLoadProgress (handlers p))
    (Wrapped (createNativeEvent loadProgress)) >>
  guarded SlotLoad (onLoad (handlers p))
    (Wrapped (createNativeEvent loadEvent)) >>
  guarded SlotLoadEnd (onLoadEnd (handlers p))
    (Wrapped (createNativeEvent loadEvent)) >>
  guarded SlotNavigationStateChange (onNavigationStateChange (handlers p))
    (Bare (nativeEvent (createNativeEvent loadEvent))).

(** The end of [initDOM] (lines 103-110), with [dom] bound. *)
Definition dispatchStart : M unit :=
  let! startEvent := spread_eventBase true (Some true) (Some "other") None None in
  guarded SlotLoadStart (onLoadStart (handlers p))
    (Wrapped (createNativeEvent startEvent)) >>
  guarded SlotNavigationStateChange (onNavigationStateChange (handlers p))
    (Bare (nativeEvent (createNativeEvent startEvent))).

End Closures.

(** The state [initDOM] starts from: the window the constructor creates
    for the URL option ([url ? 'url' : '']), and an empty log. *)
Definition init_state (p : InitDOMParams) : St :=
  {| st_window := Dom.fresh (truthy_string (url p)); st_log := [] |}.

(** [initDOM] (lines 39-112): what it emits, and the DOM it returns
    unless the constructor throws. *)
Definition initDOM (p : InitDOMParams) : list effect * result JSDOM :=
  match (new_JSDOM p >> dispatchStart p) (init_state p) with
  | (s, Ok _) =>
      (st_log s,
       Ok {| window := st_window s; readyState := Dom.loading_doc; env := p |})
  | (s, Throw e) => (st_log s, Throw e)
  end.

(** *** The component [JSDOMBackend] *)

(** The argument of [initDOM] in the component (lines 155-169); it is
    also the dependency list of [useMemo] (lines 170-184), entry by
    entry, [onLoad] being the closure of [useCallback]. *)
Definition initDOM_args (props : Props.DOMBackendProps) (cycle : nat)
  : InitDOMParams :=
  let h := Props.domHandlers props in
  {| html := Props.html props;
     url := Some (Props.url props);
     injectedJavaScriptBeforeContentLoaded :=
       Props.injectedJavaScriptBeforeContentLoaded props;
     injectedJavascript := Props.injectedJavascript props;
     javaScriptEnabled := Props.javaScriptEnabled props;
     userAgent := Props.userAgent props;
     handlers :=
       {| onMessage := Host <$> onMessage h;
          onLoad := Some (BackendOnLoad (onLoad h));
          onLoadStart := Host <$> onLoadStart h;
          onLoadProgress := Host <$> onLoadProgress h;
          onLoadEnd := Host <$> onLoadEnd h;
          onNavigationStateChange := Host <$> onNavigationStateChange h |};
     loadCycleId := cycle |}.

Definition tag (d : nat) (es : list effect) : list (nat * effect) :=
  pair d <$> es.

(** A state setter writes its cell; other effects leave the cells alone. *)
Definition set_state (c : Component) (e : effect) : Component :=
  match e with
  | SetBackendState s =>
      {| backendState := s; loadCycleId_cell := loadCycleId_cell c;
         memo_deps := memo_deps c; memo_dom := memo_dom c; ref := ref c |}
  | SetLoadCycleId n =>
      {| backendState := backendState c; loadCycleId_cell := n;
         memo_deps := memo_deps c; memo_dom := memo_dom c; ref := ref c |}
  | _ => c
  end.

Definition commit (es : list effect) (c : Component) : Component :=
  foldl set_state c es.

(** Effects [es] happen on behalf of DOM [d]. *)
Definition perform (d : nat) (es : list effect) (w : World) : World :=
  {| doms := doms w; comp := commit es (comp w);
     log := log w ++ tag d es; crashed := crashed w |}.

(** Code [m] of the closures of DOM [d] runs against the window of [d],
    once the ready state is [rs]; an exception that leaves it is logged. *)
Definition run_on (d : nat) (rs : Dom.ReadyState)
    (m : InitDOMParams → M unit) (w : World) : World :=
  match doms w !! d with
  | None => w
  | Some j =>
      let '(s, r) := m (env j) {| st_window := window j; st_log := [] |} in
      let es := st_log s ++ match r with Ok _ => [] | Throw e => [Raised e] end in
      perform d es
        {| doms := <[d := {| window := st_window s; readyState := rs;
                             env := env j |}]> (doms w);
           comp := comp w; log := log w; crashed := crashed w |}
  end.

Definition ready (d : nat) (w : World) : option Dom.ReadyState :=
  readyState <$> doms w !! d.

(** The methods of the handle (lines 189-203). *)
Definition invoke (h : Handle) (m : Method) (w : World) : World :=
  match m with
  | GoBack => perform (dom h) [Warn "goBack not implemented"] w
  | GoForward => perform (dom h) [Warn "goForward not implemented"] w
  | Reload => perform (dom h) [SetLoadCycleId (captured_loadCycleId h + 1)] w
  | StopLoading => perform (dom h) [Warn "stopLoading not implemented"] w
  | InjectJavascript script =>
      match captured_backendState h, ready (dom h) w with
      | loaded, Some rs => run_on (dom h) rs (λ p, window_eval p true script) w
      | _, _ => w
      end
  end.

(** [getWindow] and [getDocument] (lines 204-209). *)
Definition getWindow (h : Handle) (w : World) : option Dom.Window :=
  window <$> doms w !! dom h.

Definition getDocument (h : Handle) (w : World) : option Dom.Document :=
  Dom.document <$> getWindow h w.

(** The handle a render leaves in [ref.current]: the object is rebuilt
    when [dom], [loadCycleId] or [backendState] changed (line 211), and
    holds exactly these three. *)
Definition make_handle (d : nat) (c : Component) : Handle :=
  {| dom := d; captured_loadCycleId := loadCycleId_cell c;
     captured_backendState := backendState c |}.

(** One render (lines 144-219): [useMemo] keeps the DOM unless a
    dependency changed, and builds a new one with [initDOM] otherwise;
    then the handle is brought up to date. *)
Definition render (props : Props.DOMBackendProps) (w : World) : World :=
  let c := comp w in
  let args := initDOM_args props (loadCycleId_cell c) in
  if decide (args = memo_deps c) then
    {| doms := doms w;
       comp := {| backendState := backendState c;
                  loadCycleId_cell := loadCycleId_cell c;
                  memo_deps := memo_deps c; memo_dom := memo_dom c;
                  ref := make_handle (memo_dom c) c |};
       log := log w; crashed := crashed w |}
  else
    let d := length (doms w) in
    match initDOM args with
    | (es, Ok j) =>
        perform d es
          {| doms := doms w ++ [j];
             comp := {| backendState := backendState c;
                        loadCycleId_cell := loadCycleId_cell c;
                        memo_deps := args; memo_dom := d;
                        ref := make_handle d c |};
             log := log w; crashed := crashed w |}
    | (es, Throw e) =>
        {| doms := doms w; comp := c;
           log := log w ++ tag d (es ++ [Raised e]); crashed := Some e |}
    end.

(** The first render: the state cells hold their initial values (lines
    144 and 146) and [useMemo] has nothing to compare with. *)
Definition mount (props : Props.DOMBackendProps) : World :=
  let args := initDOM_args props 0 in
  let c := {| backendState := loading_state; loadCycleId_cell := 0;
              memo_deps := args; memo_dom := 0;
              ref := {| dom := 0; captured_loadCycleId := 0;
                        captured_backendState := loading_state |} |} in
  match initDOM args with
  | (es, Ok j) =>
      perform 0 es {| doms := [j]; comp := c; log := []; crashed := None |}
  | (es, Throw e) =>
      {| doms := []; comp := c; log := tag 0 (es ++ [Raised e]);
         crashed := Some e |}
  end.

(** One event in the life of the component.  The engine fires
    [DOMContentLoaded] when the document of a DOM leaves the ready state
    loading, and [load] when it becomes complete, each once; scripts of
    the page run only if the DOM was built with scripts enabled.  After a
    render threw, React has unmounted the component and the run is over. *)
Definition step (w : World) (i : input) : World :=
  match crashed w with
  | Some _ => w
  | None =>
      match i with
      | FireDOMContentLoaded d =>
          match ready d w with
          | Some Dom.loading_doc => run_on d Dom.interactive onDOMContentLoaded w
          | _ => w
          end
      | FireLoad d =>
          match ready d w with
          | Some Dom.interactive => run_on d Dom.complete onLoadListener w
          | _ => w
          end
      | PageScript d ops =>
          match ready d w with
          | Some rs =>
              run_on d rs
                (λ p, if truthy_bool (javaScriptEnabled p)
                      then exec_ops p true ops else ret tt) w
          | None => w
          end
      | Render props => render props w
      | Invoke h m => invoke h m w
      | InvokeCurrent m => invoke (ref (comp w)) m w
      end
  end.

Definition run (w : World) (ins : list input) : World := foldl step w ins.

End Backend.

(** ** Reading the log *)

(** The callbacks a handler slot contributes: those of [call] if the
    handler was supplied, none otherwise. *)
Definition dispatch (s : Slot) (f : option fn) (arg : payload) : list effect :=
  from_option (λ f, call s f arg) [] f.

Definition log_append (es : list effect) (s : St) : St :=
  {| st_window := st_window s; st_log := st_log s ++ es |}.

(** The exception a computation ended with, as the engine or the host
    sees it. *)
Definition raised {A} (r : result A) : list effect :=
  match r with Ok _ => [] | Throw e => [Raised e] end.

(** Dispatches that announce the start of a load: [onLoadStart], and the
    navigation state change that carries [loading: true]. *)
Definition is_start_dispatch (e : effect) : bool :=
  match e with
  | Called SlotLoadStart _ _ => true
  | Called SlotNavigationStateChange _ (Bare ev) =>
      bool_decide (loading ev = Some true)
  | _ => false
  end.

(** Dispatches of the full-load sequence: progress, load, load end, and
    the navigation state change that does not announce a start. *)
Definition is_load_dispatch (e : effect) : bool :=
  match e with
  | Called SlotLoadProgress _ _ | Called SlotLoad _ _ | Called SlotLoadEnd _ _ => true
  | Called SlotNavigationStateChange _ (Bare ev) =>
      negb (bool_decide (loading ev = Some true))
  | _ => false
  end.

(** The entries of a log made on behalf of DOM [d] that satisfy [P]. *)
Definition on_dom (P : effect → bool) (d : nat) (l : list (nat * effect))
  : list (nat * effect) :=
  filter (λ x, bool_decide (x.1 = d) && P x.2) l.

(** The object literal [{ ...eventBase, ... }] read off window [w]. *)
Definition base_event (w : Dom.Window) (l : option bool) (nt : option string)
    (pr : option nat) (d : option string) : NativeEvent :=
  {| Event.url := Dom.href (Dom.location w);
     title := Dom.title (Dom.document w);
     loading := l; navigationType := nt; progress := pr; data := d |}.

(** What the three phases of a DOM's life put in the log: the
    constructor, the end of [initDOM] against the parsed window [w], and
    the [load] listener against the window [w] of that moment. *)
Definition pre_effects (p : InitDOMParams) : list effect :=
  match truthy_string (injectedJavaScriptBeforeContentLoaded p) with
  | Some s => [Eval s]
  | None => []
  end.

Definition start_effects (p : InitDOMParams) (w : Dom.Window) : list effect :=
  let ev := base_event w (Some true) (Some "other") None None in
  dispatch SlotLoadStart (onLoadStart (handlers p))
    (Wrapped (createNativeEvent ev)) ++
  dispatch SlotNavigationStateChange (onNavigationStateChange (handlers p))
    (Bare ev).

Definition load_effects (p : InitDOMParams) (w : Dom.Window) : list effect :=
  let ev := base_event w None (Some "other") None None in
  let pv := base_event w None None (Some 1) None in
  dispatch SlotLoadProgress (onLoadProgress (handlers p))
    (Wrapped (createNativeEvent pv)) ++
  dispatch SlotLoad (onLoad (handlers p)) (Wrapped (createNativeEvent ev)) ++
  dispatch SlotLoadEnd (onLoadEnd (handlers p))
    (Wrapped (createNativeEvent ev)) ++
  dispatch SlotNavigationStateChange (onNavigationStateChange (handlers p))
    (Bare ev).

(** Effects of running a script: evaluations, messages, an exception. *)
Definition is_script_effect (e : effect) : bool :=
  match e with
  | Called SlotMessage _ _ | Eval _ | Raised _ => true
  | _ => false
  end.

(** Effects of the methods of the handle that do not touch a DOM. *)
Definition is_handle_effect (e : effect) : bool :=
  match e with
  | Warn _ | SetLoadCycleId _ => true
  | _ => false
  end.

(** Whatever state it starts from, computation [m] only adds effects
    that satisfy [P] to the log. *)
Definition emits {A} (P : effect → bool) (m : M A) : Prop :=
  ∀ s, ∃ es, st_log (m s).1 = st_log s ++ es ∧ Forall (λ e, P e) es.

(** The DOMs of a component were all built by its renders. *)
Definition built (w : World) : Prop :=
  ∀ d j, doms w !! d = Some j → ∃ props n, env j = initDOM_args props n.

(** Invariants of a mounted component.

    Apart from what the methods of a stray handle log, every entry of the
    log is made on behalf of a DOM that exists. *)
Definition tags_bounded (w : World) : Prop :=
  Forall (λ x, is_handle_effect x.2 = false → x.1 < length (doms w)) (log w).

(** No dispatch of the full-load sequence was made on behalf of a DOM
    whose document is not complete. *)
Definition quiet_before_load (w : World) : Prop :=
  ∀ d j, doms w !! d = Some j → readyState j ≠ Dom.complete →
    on_dom is_load_dispatch d (log w) = [].

(** The log of every DOM starts with the effects of its construction:
    nothing but stray handle calls comes before on its behalf, and no
    start dispatch comes after. *)
Definition started_once (w : World) : Prop :=
  ∀ d j, doms w !! d = Some j →
    ∃ l1 wnd l2,
      log w = l1 ++ tag d (pre_effects (env j) ++ start_effects (env j) wnd) ++ l2
      ∧ Forall (λ x, x.1 = d → is_handle_effect x.2 = true) l1
      ∧ Forall (λ x, x.1 = d → is_start_dispatch x.2 = false) l2.

(** [ref.current.dom] is the memoised DOM, which is the newest one, built
    from the memoised dependencies. *)
Definition handle_current (w : World) : Prop :=
  dom (ref (comp w)) = memo_dom (comp w)
  ∧ S (memo_dom (comp w)) = length (doms w)
  ∧ ∃ j, doms w !! memo_dom (comp w) = Some j ∧ env j = memo_deps (comp w).

(** The four invariants hold as long as the component has not crashed. *)
Definition healthy (w : World) : Prop :=
  crashed w = None →
  tags_bounded w ∧ quiet_before_load w ∧ started_once w ∧ handle_current w.

(** The component has rendered [props] in load cycle [n] and nothing
    has set the load cycle since: the memo cell and the handle are those
    of cycle [n]. *)
Definition settled (props : Props.DOMBackendProps) (n : nat) (w : World) : Prop :=
  crashed w = None
  ∧ loadCycleId_cell (comp w) = n
  ∧ memo_deps (comp w) = initDOM_args props n
  ∧ captured_loadCycleId (ref (comp w)) = n.

(** [n] rounds of: the host calls [ref.current.reload()], React renders. *)
Definition reloads (props : Props.DOMBackendProps) (n : nat) : list input :=
  concat (replicate n [InvokeCurrent Reload; Render props]).


(** ** An engine and two pages for the examples

    The engine knows three scripts and one markup. *)

Definition demo_interp (script : string) : list Dom.page_op :=
  if decide (script = "window.ReactNativeWebView.postMessage('hello')")
  then [Dom.RNPostMessage (Dom.JString "hello")]
  else if decide (script = "window.postMessage(42)")
  then [Dom.PostMessage (Dom.JNumber 42)]
  else if decide (script = "document.title = 'changed'")
  then [Dom.SetTitle "changed"]
  else [].

Definition demo_parse (scripts : bool) (markup : string) (w : Dom.Window)
  : Dom.Window :=
  if decide (markup = "<title>Home</title>") then Dom.set_title "Home" w else w.

Definition demo_engine : Engine :=
  {| interp := demo_interp; parse := demo_parse |}.

Definition demo_handlers : DOMHandlers nat :=
  {| onMessage := Some 1; onLoad := Some 2; onLoadStart := Some 3;
     onLoadProgress := Some 4; onLoadEnd := Some 5;
     onNavigationStateChange := Some 6 |}.

(** A page whose injected script posts a message once the content is
    loaded. *)
Definition demo_props : Props.DOMBackendProps :=
  {| Props.html := "<title>Home</title>";
     Props.url := "https://example.org/";
     Props.injectedJavascript :=
       Some "window.ReactNativeWebView.postMessage('hello')";
     Props.injectedJavaScriptBeforeContentLoaded :=
       Some "document.title = 'changed'";
     Props.javaScriptEnabled := Some true;
     Props.userAgent := None;
     Props.domHandlers := demo_handlers |}.

(** The same page, posting its message from the script that runs before
    the content is loaded. *)
Definition early_props : Props.DOMBackendProps :=
  {| Props.html := "<title>Home</title>";
     Props.url := "https://example.org/";
     Props.injectedJavascript := None;
     Props.injectedJavaScriptBeforeContentLoaded :=
       Some "window.ReactNativeWebView.postMessage('hello')";
     Props.javaScriptEnabled := Some true;
     Props.userAgent := None;
     Props.domHandlers := demo_handlers |}.

(** ** The shapes of a step

    Every step of a mounted component has one of these shapes. *)

Section Shapes.

Variable engine : Engine.

Inductive transition (w : World) : World → Prop :=
| T_noop : transition w w
| T_script d j wnd rs es :
    (* a script ran in DOM [d], perhaps as its content-loaded listener *)
    doms w !! d = Some j →
    Forall (λ e, is_script_effect e) es →
    rs = readyState j ∨ (readyState j = Dom.loading_doc ∧ rs = Dom.interactive) →
    transition w
      {| doms := <[d := {| window := wnd; readyState := rs; env := env j |}]> (doms w);
         comp := comp w; log := log w ++ tag d es; crashed := crashed w |}
| T_load d j :
    (* the load listener of DOM [d] ran *)
    doms w !! d = Some j →
    readyState j = Dom.interactive →
    transition w
      {| doms := <[d := {| window := window j; readyState := Dom.complete;
                           env := env j |}]> (doms w);
         comp := commit (load_effects (env j) (window j)) (comp w);
         log := log w ++ tag d (load_effects (env j) (window j));
         crashed := crashed w |}
| T_handle d es :
    (* a method of a handle warned, or set the load cycle *)
    Forall (λ e, is_handle_effect e) es →
    transition w (perform d es w)
| T_rerender :
    (* a render kept the DOM *)
    transition w
      {| doms := doms w;
         comp := {| backendState := backendState (comp w);
                    loadCycleId_cell := loadCycleId_cell (comp w);
                    memo_deps := memo_deps (comp w);
                    memo_dom := memo_dom (comp w);
                    ref := make_handle (memo_dom (comp w)) (comp w) |};
         log := log w; crashed := crashed w |}
| T_construct props j :
    (* a render built a new DOM *)
    let args := initDOM_args props (loadCycleId_cell (comp w)) in
    initDOM engine args =
      (pre_effects args ++ start_effects args (window j), Ok j) →
    readyState j = Dom.loading_doc →
    env j = args →
    transition w
      {| doms := doms w ++ [j];
         comp := {| backendState := backendState (comp w);
                    loadCycleId_cell := loadCycleId_cell (comp w);
                    memo_deps := args;
                    memo_dom := length (doms w);
                    ref := make_handle (length (doms w)) (comp w) |};
         log := log w ++ tag (length (doms w))
                  (pre_effects args ++ start_effects args (window j));
         crashed := crashed w |}
| T_crash props e :
    (* a render threw in the constructor of the new DOM *)
    let args := initDOM_args props (loadCycleId_cell (comp w)) in
    transition w
      {| doms := doms w; comp := comp w;
         log := log w ++ tag (length (doms w)) (pre_effects args ++ [Raised e]);
         crashed := Some e |}.

End Shapes.

(** The page with scripts switched off, and parameters without any
    handler. *)
Definition quiet_props : Props.DOMBackendProps :=
  {| Props.html := "<title>Home</title>";
     Props.url := "https://example.org/";
     Props.injectedJavascript :=
       Some "window.ReactNativeWebView.postMessage('hello')";
     Props.injectedJavaScriptBeforeContentLoaded :=
       Some "document.title = 'changed'";
     Props.javaScriptEnabled := Some false;
     Props.userAgent := None;
     Props.domHandlers := demo_handlers |}.

Definition bare_params : InitDOMParams :=
  {| html := "<title>Home</title>";
     url := None;
     injectedJavaScriptBeforeContentLoaded := None;
     injectedJavascript := None;
     javaScriptEnabled := None;
     userAgent := None;
     handlers := {| onMessage := None; onLoad := None; onLoadStart := None;
                    onLoadProgress := None; onLoadEnd := None;
                    onNavigationStateChange := None |};
     loadCycleId := 0 |}.

(** The window of the demo page when its title is [t], and the DOM of
    the first load cycle around it. *)
Definition demo_window (t : string) : Dom.Window :=
  {| Dom.location := {| Dom.href := "https://example.org/" |};
     Dom.document := {| Dom.title := t |};
     Dom.globals := ∅;
     Dom.postMessage := Dom.BridgePostMessage;
     Dom.ReactNativeWebView := Some Dom.BridgePostMessage |}.

Definition demo_dom (t : string) (rs : Dom.ReadyState) : JSDOM :=
  {| window := demo_window t; readyState := rs;
     env := initDOM_args demo_props 0 |}.



(** ** What the component renders *)

(** A React Native [View] with its [testID] and children. *)
#[local] Set Warnings "-register-all".
Inductive Element := View (testID : string) (children : list Element).
#[local] Set Warnings "register-all".

Definition testID_of (e : Element) : string :=
  match e with View t _ => t end.

Definition children_of (e : Element) : list Element :=
  match e with View _ c => c end.

(** The string a [BackendState] is: [${backendState}] in a template. *)
Definition state_name (s : BackendState) : string :=
  match s with
  | loading_state => "loading"
  | loaded => "loaded"
  end.

(** The element the component returns (lines 213-219), from the status
    and the load cycle of the render; [${loadCycleId}] writes the number
    in decimal, and a [null] child renders nothing. *)
Definition output (backendState : BackendState) (loadCycleId : nat) : Element :=
  let children :=
    match backendState with
    | loaded => [View ("backend-loading-" +:+ pretty loadCycleId) []]
    | loading_state => []
    end in
  View ("backend-" +:+ state_name backendState +:+ "-" +:+ pretty loadCycleId)
    children.

(** Every [testID] in an element, the outer one first. *)
Fixpoint testIDs (e : Element) : list string :=
  match e with
  | View t c => t :: concat (List.map testIDs c)
  end.

(** What is on screen: the element of the last render.  A render reads
    the same [backendState] and [loadCycleId] for its element as the
    closures of the handle it leaves in [ref.current] capture. *)
Definition rendered (w : World) : Element :=
  output (captured_backendState (ref (comp w)))
    (captured_loadCycleId (ref (comp w))).

(** Inputs in which [reload()] is only ever called on [ref.current]. *)
Definition via_ref (i : input) : bool :=
  match i with
  | Invoke _ Reload => false
  | _ => true
  end.

(** [document.readyState] only moves forward. *)
Definition ready_le (a b : Dom.ReadyState) : bool :=
  match a, b with
  | Dom.loading_doc, _ => true
  | Dom.interactive, Dom.loading_doc => false
  | Dom.interactive, _ => true
  | Dom.complete, Dom.complete => true
  | Dom.complete, _ => false
  end.

(** The load cycles the DOMs of a component were built for, oldest
    first. *)
Definition cycles (w : World) : list nat :=
  (λ j, loadCycleId (env j)) <$> doms w.

(** The load cycle of the memoised dependencies is the one the handle
    captured, the state cell holds that cycle or the next one, and the
    DOMs were built for cycles that never decrease and never exceed the
    captured one. *)
Definition cycles_aligned (w : World) : Prop :=
  let cap := captured_loadCycleId (ref (comp w)) in
  loadCycleId (memo_deps (comp w)) = cap
  ∧ (loadCycleId_cell (comp w) = cap ∨ loadCycleId_cell (comp w) = S cap)
  ∧ (∀ d d' a b, (d ≤ d')%nat →
       cycles w !! d = Some a → cycles w !! d' = Some b → (a ≤ b)%nat)
  ∧ Forall (λ a, (a ≤ cap)%nat) (cycles w).

(** * Properties *)

Section Properties.

Variable engine : Engine.

(** *** Computations *)

Lemma log_append_nil s : log_append [] s = s.
Proof. destruct s. unfold log_append. simpl. by rewrite app_nil_r. Qed.

Lemma log_append_app es1 es2 s :
  log_append es2 (log_append es1 s) = log_append (es1 ++ es2) s.
Proof. unfold log_append. simpl. by rewrite app_assoc. Qed.

Lemma bind_ok {A B} (m : M A) (k : A → M B) s s' a :
  m s = (s', Ok a) → bind m k s = k a s'.
Proof. unfold bind. by intros ->. Qed.

Lemma bind_throw {A B} (m : M A) (k : A → M B) s s' e :
  m s = (s', Throw e) → bind m k s = (s', Throw e).
Proof. unfold bind. by intros ->. Qed.


Lemma guarded_eq sl f arg s :
  guarded sl f arg s = (log_append (dispatch sl f arg) s, Ok tt).
Proof. destruct f; simpl; [done|]. by rewrite log_append_nil. Qed.

(** With [dom] bound, the spread reads the location and the title of the
    window as it is now, and cannot fail. *)
Lemma spread_bound l nt pr d s :
  spread_eventBase true l nt pr d s =
  (s, Ok {| Event.url := Dom.href (Dom.location (st_window s));
            title := Dom.title (Dom.document (st_window s));
            loading := l; navigationType := nt; progress := pr; data := d |}).
Proof. reflexivity. Qed.

(** Inside the constructor it throws, and nothing else happens. *)
Lemma spread_unbound l nt pr d s :
  spread_eventBase false l nt pr d s =
  (s, Throw (ReferenceError "Cannot access 'dom' before initialization")).
Proof. reflexivity. Qed.

(** *** The closures of [initDOM] *)

Section ClosureFacts.

Variable p : InitDOMParams.

Lemma postMessage_non_string bound v s :
  Dom.is_string v = false →
  postMessage p bound v s =
  (s, Throw (Error "WebView: the argument of postMessage must be a string")).
Proof. by destruct v. Qed.

(** Once [dom] is bound, a string reaches [onMessage] as the [data] of an
    event that carries the location and title of the moment. *)
Lemma postMessage_string_bound m s :
  postMessage p true (Dom.JString m) s =
  (log_append
     (dispatch SlotMessage (onMessage (handlers p))
        (Wrapped (createNativeEvent
           {| Event.url := Dom.href (Dom.location (st_window s));
              title := Dom.title (Dom.document (st_window s));
              loading := None; navigationType := None; progress := None;
              data := Some m |}))) s,
   Ok tt).
Proof.
  unfold postMessage. destruct (onMessage (handlers p)); simpl.
  - reflexivity.
  - by rewrite log_append_nil.
Qed.

(** Inside the constructor a string is dropped if there is no
    [onMessage], and otherwise the getters of [eventBase] throw before
    [onMessage] is reached. *)
Lemma postMessage_string_unbound m s :
  postMessage p false (Dom.JString m) s =
  (s, match onMessage (handlers p) with
      | Some _ =>
          Throw (ReferenceError "Cannot access 'dom' before initialization")
      | None => Ok tt
      end).
Proof. unfold postMessage. by destruct (onMessage (handlers p)). Qed.

Lemma postMessage_unbound_log v s : st_log (postMessage p false v s).1 = st_log s.
Proof.
  destruct v; try done. rewrite postMessage_string_unbound. done.
Qed.

Lemma exec_op_unbound_log op s : st_log (exec_op p false op s).1 = st_log s.
Proof.
  destruct op; try done; unfold exec_op, bind, get_window; simpl.
  - destruct (Dom.postMessage (st_window s)); [done|].
    apply postMessage_unbound_log.
  - destruct (Dom.ReactNativeWebView (st_window s)) as [[]|]; try done.
    apply postMessage_unbound_log.
Qed.

(** A script that runs inside the constructor leaves no trace in the log. *)
Lemma exec_ops_unbound_log ops s : st_log (exec_ops p false ops s).1 = st_log s.
Proof.
  revert s. induction ops as [|op ops IH]; intros s; [done|].
  simpl. unfold bind.
  pose proof (exec_op_unbound_log op s) as Hop.
  destruct (exec_op p false op s) as [s1 [[]|e]]; simpl in *.
  - by rewrite IH.
  - done.
Qed.

Lemma dispatchStart_eq s :
  let ev := {| Event.url := Dom.href (Dom.location (st_window s));
               title := Dom.title (Dom.document (st_window s));
               loading := Some true; navigationType := Some "other";
               progress := None; data := None |} in
  dispatchStart p s =
  (log_append
     (dispatch SlotLoadStart (onLoadStart (handlers p))
        (Wrapped (createNativeEvent ev)) ++
      dispatch SlotNavigationStateChange (onNavigationStateChange (handlers p))
        (Bare ev)) s,
   Ok tt).
Proof.
  intros ev. unfold dispatchStart.
  erewrite bind_ok by apply spread_bound.
  erewrite bind_ok by apply guarded_eq.
  rewrite guarded_eq, log_append_app. reflexivity.
Qed.

Lemma onLoadListener_eq s :
  let ev := {| Event.url := Dom.href (Dom.location (st_window s));
               title := Dom.title (Dom.document (st_window s));
               loading := None; navigationType := Some "other";
               progress := None; data := None |} in
  let pv := {| Event.url := Dom.href (Dom.location (st_window s));
               title := Dom.title (Dom.document (st_window s));
               loading := None; navigationType := None;
               progress := Some 1; data := None |} in
  onLoadListener p s =
  (log_append
     (dispatch SlotLoadProgress (onLoadProgress (handlers p))
        (Wrapped (createNativeEvent pv)) ++
      dispatch SlotLoad (onLoad (handlers p)) (Wrapped (createNativeEvent ev)) ++
      dispatch SlotLoadEnd (onLoadEnd (handlers p))
        (Wrapped (createNativeEvent ev)) ++
      dispatch SlotNavigationStateChange (onNavigationStateChange (handlers p))
        (Bare ev)) s,
   Ok tt).
Proof.
  intros ev pv. unfold onLoadListener.
  erewrite bind_ok by apply spread_bound.
  erewrite bind_ok by apply spread_bound.
  erewrite bind_ok by apply guarded_eq.
  erewrite bind_ok by apply guarded_eq.
  erewrite bind_ok by apply guarded_eq.
  rewrite guarded_eq, !log_append_app, <- ?app_assoc. reflexivity.
Qed.

End ClosureFacts.

(** *** What computations add to the log *)

Lemma emits_ret {A} P (a : A) : emits P (ret a).
Proof. intros s. exists []. by rewrite app_nil_r. Qed.

Lemma emits_throw {A} P e : emits P (@throw A e).
Proof. intros s. exists []. by rewrite app_nil_r. Qed.

Lemma emits_get_window P : emits P get_window.
Proof. intros s. exists []. by rewrite app_nil_r. Qed.

Lemma emits_modify_window P f : emits P (modify_window f).
Proof. intros s. exists []. simpl. by rewrite app_nil_r. Qed.

Lemma emits_emit (P : effect → bool) es : Forall (λ e, P e) es → emits P (emit es).
Proof. intros H s. by exists es. Qed.

Lemma emits_bind {A B} P (m : M A) (k : A → M B) :
  emits P m → (∀ a, emits P (k a)) → emits P (bind m k).
Proof.
  intros Hm Hk s. unfold bind.
  destruct (Hm s) as (es1 & E1 & F1).
  destruct (m s) as [s1 [a|e]]; simpl in *.
  - destruct (Hk a s1) as (es2 & E2 & F2).
    exists (es1 ++ es2). rewrite E2, E1, app_assoc. split; [done|].
    by apply Forall_app.
  - by exists es1.
Qed.

Lemma dispatch_host_message o arg :
  Forall (λ e, is_script_effect e) (dispatch SlotMessage (Host <$> o) arg).
Proof. destruct o; simpl; repeat constructor. Qed.

Section BuiltClosures.

Variables (props : Props.DOMBackendProps) (n : nat).

Local Abbreviation p := (initDOM_args props n).

Lemma postMessage_emits bound v : emits is_script_effect (postMessage p bound v).
Proof.
  intros s. destruct v; try (exists []; simpl; by rewrite app_nil_r).
  destruct bound.
  - rewrite postMessage_string_bound. eexists. split; [reflexivity|].
    apply dispatch_host_message.
  - rewrite postMessage_string_unbound. exists []. simpl. by rewrite app_nil_r.
Qed.

Lemma exec_op_emits bound op : emits is_script_effect (exec_op p bound op).
Proof.
  destruct op; simpl; try apply emits_modify_window.
  - apply emits_bind; [apply emits_get_window|]. intros w.
    destruct (Dom.postMessage w); [apply emits_ret|apply postMessage_emits].
  - apply emits_bind; [apply emits_get_window|]. intros w.
    destruct (Dom.ReactNativeWebView w) as [[]|];
      [apply emits_ret|apply postMessage_emits|apply emits_throw].
Qed.

Lemma exec_ops_emits bound ops : emits is_script_effect (exec_ops p bound ops).
Proof.
  induction ops as [|op ops IH]; simpl; [apply emits_ret|].
  apply emits_bind; [apply exec_op_emits|done].
Qed.

Lemma window_eval_emits bound script :
  emits is_script_effect (window_eval engine p bound script).
Proof.
  apply emits_bind; [|intros; apply exec_ops_emits].
  apply emits_emit. by repeat constructor.
Qed.

Lemma onDOMContentLoaded_emits : emits is_script_effect (onDOMContentLoaded engine p).
Proof.
  unfold onDOMContentLoaded.
  destruct (truthy_bool _); [|apply emits_ret].
  destruct (truthy_string _); [apply window_eval_emits|apply emits_ret].
Qed.

End BuiltClosures.

(** Script effects write no state cell. *)
Lemma commit_script es c :
  Forall (λ e, is_script_effect e) es → commit es c = c.
Proof.
  unfold commit. induction 1 as [|e es He _ IH]; [done|].
  simpl. destruct e; try done; simpl in He; done.
Qed.

Lemma commit_app es1 es2 c : commit (es1 ++ es2) c = commit es2 (commit es1 c).
Proof. unfold commit. apply foldl_app. Qed.

(** *** [initDOM] *)

Lemma new_JSDOM_log p s :
  st_log (new_JSDOM engine p s).1 = st_log s ++ pre_effects p.
Proof.
  unfold new_JSDOM, beforeParse, pre_effects.
  destruct (truthy_string (injectedJavaScriptBeforeContentLoaded p)) as [sc|].
  - unfold window_eval, bind, emit, modify_window. simpl.
    match goal with |- context [exec_ops p false ?ops ?s0] =>
      pose proof (exec_ops_unbound_log p ops s0) as Hlog;
      destruct (exec_ops p false ops s0) as [s1 [[]|e]] end;
      simpl in *; done.
  - simpl. by rewrite app_nil_r.
Qed.

(** [initDOM] either returns a DOM in the ready state loading, after the
    effects of the constructor and the start dispatches, or the
    constructor throws after the effects of the constructor alone. *)
Lemma initDOM_cases p :
  (∃ j, initDOM engine p = (pre_effects p ++ start_effects p (window j), Ok j)
        ∧ readyState j = Dom.loading_doc ∧ env j = p)
  ∨ (∃ e, initDOM engine p = (pre_effects p, Throw e)).
Proof.
  unfold initDOM.
  pose proof (new_JSDOM_log p (init_state p)) as Hlog.
  destruct (new_JSDOM engine p (init_state p)) as [s1 [[]|e]] eqn:Hn;
    simpl in Hlog.
  - left. rewrite (bind_ok _ _ _ _ _ Hn), dispatchStart_eq. simpl. rewrite Hlog.
    by exists {| window := st_window s1; readyState := Dom.loading_doc; env := p |}.
  - right. exists e. rewrite (bind_throw _ _ _ _ _ Hn). by rewrite Hlog.
Qed.

(** Built parameters hand host functions to every slot but [onLoad], so
    the start dispatches are calls of host functions. *)
Lemma start_effects_built props n w :
  Forall (λ e, is_start_dispatch e) (start_effects (initDOM_args props n) w).
Proof.
  unfold start_effects. simpl.
  destruct (onLoadStart _), (onNavigationStateChange _); simpl;
    repeat constructor.
Qed.

Lemma pre_effects_script p : Forall (λ e, is_script_effect e) (pre_effects p).
Proof. unfold pre_effects. destruct (truthy_string _); repeat constructor. Qed.

Lemma commit_start es c :
  Forall (λ e, is_start_dispatch e) es → commit es c = c.
Proof.
  unfold commit. induction 1 as [|e es He _ IH]; [done|].
  simpl. destruct e; try done; simpl in He; done.
Qed.

Lemma commit_initDOM props n w c :
  commit (pre_effects (initDOM_args props n) ++
          start_effects (initDOM_args props n) w) c = c.
Proof.
  rewrite commit_app, (commit_script _ c) by apply pre_effects_script.
  apply commit_start, start_effects_built.
Qed.

(** *** Steps *)

Lemma step_crashed w i e : crashed w = Some e → step engine w i = w.
Proof. unfold step. by intros ->. Qed.

Lemma run_cons w i ins : run engine w (i :: ins) = run engine (step engine w i) ins.
Proof. reflexivity. Qed.

Lemma run_app w ins1 ins2 :
  run engine w (ins1 ++ ins2) = run engine (run engine w ins1) ins2.
Proof. unfold run. apply foldl_app. Qed.

(** A script path of a built DOM is a script transition. *)
Lemma run_on_script w d j rs (m : InitDOMParams → M unit) :
  doms w !! d = Some j →
  emits is_script_effect (m (env j)) →
  rs = readyState j ∨ (readyState j = Dom.loading_doc ∧ rs = Dom.interactive) →
  transition engine w (run_on d rs m w).
Proof.
  intros Hj Hm Hrs. unfold run_on. rewrite Hj.
  destruct (Hm {| st_window := window j; st_log := [] |}) as (es & E & F).
  destruct (m (env j) _) as [s r]. simpl in E. subst es.
  assert (Forall (λ e, is_script_effect e) (st_log s ++ raised r)) as F'.
  { apply Forall_app. split; [done|]. destruct r; repeat constructor. }
  unfold perform. simpl. rewrite commit_script by done.
  by eapply T_script.
Qed.

Lemma invoke_transition w h m :
  built w → transition engine w (invoke engine h m w).
Proof.
  intros Hb. destruct m; simpl;
    try (apply T_handle; by repeat constructor).
  destruct (captured_backendState h); [apply T_noop|].
  unfold ready. destruct (doms w !! dom h) as [j|] eqn:Hj; [|apply T_noop].
  simpl. eapply run_on_script; [done| |by left].
  destruct (Hb _ _ Hj) as (props & n & ->). apply window_eval_emits.
Qed.

Lemma render_transition w props : transition engine w (render engine props w).
Proof.
  unfold render. case_decide as Hdeps; [apply T_rerender|].
  destruct (initDOM_cases (initDOM_args props (loadCycleId_cell (comp w))))
    as [(j & E & Hrs & Henv)|(e & E)]; rewrite E.
  - unfold perform. simpl. rewrite commit_initDOM.
    by apply T_construct.
  - apply T_crash.
Qed.

(** Every step of a component that has not crashed, and whose DOMs it
    built itself, has one of the shapes of [transition]. *)
Lemma step_transition w i :
  crashed w = None → built w → transition engine w (step engine w i).
Proof.
  intros Hc Hb. unfold step. rewrite Hc.
  destruct i as [d|d|d ops|props|h m|m].
  - unfold ready. destruct (doms w !! d) as [j|] eqn:Hj; [|apply T_noop].
    simpl. destruct (readyState j) eqn:Hrs; try apply T_noop.
    eapply run_on_script; [done| |by right].
    destruct (Hb _ _ Hj) as (props & n & ->). apply onDOMContentLoaded_emits.
  - unfold ready. destruct (doms w !! d) as [j|] eqn:Hj; [|apply T_noop].
    simpl. destruct (readyState j) eqn:Hrs; try apply T_noop.
    unfold run_on. rewrite Hj, onLoadListener_eq. simpl.
    unfold perform. simpl. rewrite app_nil_r.
    by apply T_load.
  - unfold ready. destruct (doms w !! d) as [j|] eqn:Hj; [|apply T_noop].
    simpl. eapply run_on_script; [done| |by left].
    destruct (Hb _ _ Hj) as (props & n & ->).
    destruct (truthy_bool _); [apply exec_ops_emits|apply emits_ret].
  - apply render_transition.
  - by apply invoke_transition.
  - by apply invoke_transition.
Qed.


Lemma truthy_string_nonempty script :
  script ≠ "" → truthy_string (Some script) = Some script.
Proof. intros H. simpl. by case_decide. Qed.

(** *** Scripts and the script flag *)


(** *** Missing callbacks *)

(** C8. The guard of a dispatch point whose handler is missing returns
    at once, and the closure of the component calls nothing when the host
    gave no [onLoad].  So every dispatch point adds to the log exactly
    the calls of the handlers that were supplied, a missing handler
    contributing nothing, and returns normally: the start dispatches, the
    four dispatches of the load listener, and the delivery of a message.
    With no handler at all each of them leaves the state as it found it. *)
Theorem C8_missing_handlers (p : InitDOMParams) (s : St) :
  (∀ sl arg, guarded sl None arg s = (s, Ok tt))
  ∧ (∀ arg, call SlotLoad (BackendOnLoad None) arg = [SetBackendState loaded])
  ∧ (∀ sl arg, dispatch sl None arg = [])
  ∧ dispatchStart p s = (log_append (start_effects p (st_window s)) s, Ok tt)
  ∧ onLoadListener p s = (log_append (load_effects p (st_window s)) s, Ok tt)
  ∧ (onMessage (handlers p) = None →
       ∀ bound m, postMessage p bound (Dom.JString m) s = (s, Ok tt))
  ∧ (onLoadStart (handlers p) = None →
     onNavigationStateChange (handlers p) = None →
       dispatchStart p s = (s, Ok tt))
  ∧ (onLoadProgress (handlers p) = None → onLoad (handlers p) = None →
     onLoadEnd (handlers p) = None →
     onNavigationStateChange (handlers p) = None →
       onLoadListener p s = (s, Ok tt)).
Proof.
  split; [done|]. split; [done|]. split; [done|].
  split; [apply dispatchStart_eq|].
  split; [apply onLoadListener_eq|].
  split; [|split].
  - intros H [] m.
    + rewrite postMessage_string_bound, H. simpl. by rewrite log_append_nil.
    + by rewrite postMessage_string_unbound, H.
  - intros H1 H2. rewrite dispatchStart_eq, H1, H2. simpl.
    by rewrite log_append_nil.
  - intros H1 H2 H3 H4. rewrite onLoadListener_eq, H1, H2, H3, H4. simpl.
    by rewrite log_append_nil.
Qed.

(** *** The handle *)

(** C9. [stopLoading], [goBack] and [goForward] log one warning on behalf
    of the DOM of the handle and change nothing else: the DOMs, the hook
    cells (status, load cycle, memoised DOM, handle) and the crash flag of
    the world are the same after the call, whatever handle is used and
    whether the call goes through a handle the host kept or through
    [ref.current]. *)
Theorem C9_unimplemented_controls (w : World) (h : Handle) :
  let warned msg :=
    {| doms := doms w; comp := comp w;
       log := log w ++ [(dom h, Warn msg)]; crashed := crashed w |} in
  let same w' :=
    doms w' = doms w ∧ comp w' = comp w ∧ crashed w' = crashed w in
  (invoke engine h StopLoading w = warned "stopLoading not implemented"
   ∧ invoke engine h GoBack w = warned "goBack not implemented"
   ∧ invoke engine h GoForward w = warned "goForward not implemented")
  ∧ (same (step engine w (Invoke h StopLoading))
     ∧ same (step engine w (Invoke h GoBack))
     ∧ same (step engine w (Invoke h GoForward)))
  ∧ (same (step engine w (InvokeCurrent StopLoading))
     ∧ same (step engine w (InvokeCurrent GoBack))
     ∧ same (step engine w (InvokeCurrent GoForward))).
Proof.
  simpl. split; [done|].
  unfold step. destruct (crashed w) eqn:Hc; simpl; rewrite ?Hc; done.
Qed.

(** *** Classes of effects *)

Lemma script_not_load e : is_script_effect e → is_load_dispatch e = false.
Proof. by destruct e as [[] ? ?| | | | |]. Qed.

Lemma script_not_start e : is_script_effect e → is_start_dispatch e = false.
Proof. by destruct e as [[] ? ?| | | | |]. Qed.

Lemma handle_not_load e : is_handle_effect e → is_load_dispatch e = false.
Proof. by destruct e. Qed.

Lemma handle_not_start e : is_handle_effect e → is_start_dispatch e = false.
Proof. by destruct e. Qed.

Lemma start_not_load e : is_start_dispatch e → is_load_dispatch e = false.
Proof.
  destruct e as [[] ? [|ev]| | | | |]; try done. simpl.
  by destruct (bool_decide _).
Qed.

Lemma load_effects_not_start props n w :
  Forall (λ e, is_start_dispatch e = false) (load_effects (initDOM_args props n) w).
Proof.
  unfold load_effects. simpl.
  destruct (onLoadProgress _), (onLoad _), (onLoadEnd _),
    (onNavigationStateChange _); simpl; repeat constructor.
Qed.

Lemma initDOM_effects_not_load props n w :
  Forall (λ e, is_load_dispatch e = false)
    (pre_effects (initDOM_args props n) ++ start_effects (initDOM_args props n) w).
Proof.
  apply Forall_app. split.
  - eapply Forall_impl; [apply pre_effects_script|]. apply script_not_load.
  - eapply Forall_impl; [apply start_effects_built|]. apply start_not_load.
Qed.

(** *** Entries of one DOM *)

Lemma on_dom_app P d l1 l2 :
  on_dom P d (l1 ++ l2) = on_dom P d l1 ++ on_dom P d l2.
Proof. apply filter_app. Qed.

Lemma on_dom_tag_other P d d' es : d ≠ d' → on_dom P d (tag d' es) = [].
Proof.
  intros Hne. induction es as [|e es IH]; [done|].
  unfold on_dom, tag in *. rewrite fmap_cons, filter_cons_False; [done|].
  simpl. rewrite andb_True, bool_decide_spec. intros [E _]. by apply Hne.
Qed.

Lemma on_dom_tag_none (P : effect → bool) d d' es :
  Forall (λ e, P e = false) es → on_dom P d (tag d' es) = [].
Proof.
  induction 1 as [|e es He _ IH]; [done|].
  unfold on_dom, tag in *. rewrite fmap_cons, filter_cons_False; [done|].
  simpl. rewrite andb_True, He. by intros [_ ?].
Qed.

Lemma on_dom_tag_all (P : effect → bool) d es :
  Forall (λ e, P e) es → on_dom P d (tag d es) = tag d es.
Proof.
  induction 1 as [|e es He _ IH]; [done|].
  unfold on_dom, tag in *. rewrite fmap_cons, filter_cons_True.
  - by rewrite IH.
  - simpl. rewrite andb_True, bool_decide_spec. done.
Qed.

Lemma on_dom_none (P : effect → bool) d l :
  Forall (λ x, x.1 = d → P x.2 = false) l → on_dom P d l = [].
Proof.
  induction 1 as [|x l Hx _ IH]; [done|].
  unfold on_dom in *. rewrite filter_cons_False; [done|].
  rewrite andb_True, bool_decide_spec. intros [E HP].
  rewrite (Hx E) in HP. done.
Qed.

Lemma Forall_tag (P : nat * effect → Prop) d es :
  Forall P (tag d es) ↔ Forall (λ e, P (d, e)) es.
Proof. unfold tag. by rewrite Forall_fmap. Qed.

(** *** Invariants *)

Lemma transition_built w w' : transition engine w w' → built w → built w'.
Proof.
  intros Ht Hb. destruct Ht as [|d0 j0 wnd rs es Hj0 _ _|d0 j0 Hj0 _|d0 es _|
                                 |props jn args _ _ Henv|props e args]; try done.
  - intros d j [(-> & <- & _)|[_ Hj]]%list_lookup_insert_Some; simpl; eauto.
  - intros d j [(-> & <- & _)|[_ Hj]]%list_lookup_insert_Some; simpl; eauto.
  - intros d j [[_ Hj]|[_ <-]]%lookup_snoc_Some; eauto.
Qed.

(** Induction over the run of a component: what holds at the start and is
    kept by every shape of step holds at the end. *)
Lemma run_ind (I : World → Prop) :
  (∀ w w', crashed w = None → built w → I w → transition engine w w' → I w') →
  ∀ ins w, built w → I w → I (run engine w ins).
Proof.
  intros Hstep. induction ins as [|i ins IH]; intros w Hb HI; [done|].
  rewrite run_cons. destruct (crashed w) as [e|] eqn:Hc.
  - rewrite (step_crashed _ _ e) by done. by apply IH.
  - pose proof (step_transition w i Hc Hb) as Ht.
    apply IH; [by eapply transition_built|by eapply Hstep].
Qed.

(** The world after the first render. *)
Lemma mount_cases props :
  let args := initDOM_args props 0 in
  (∃ j, mount engine props =
          {| doms := [j];
             comp := {| backendState := loading_state; loadCycleId_cell := 0;
                        memo_deps := args; memo_dom := 0;
                        ref := {| dom := 0; captured_loadCycleId := 0;
                                  captured_backendState := loading_state |} |};
             log := tag 0 (pre_effects args ++ start_effects args (window j));
             crashed := None |}
        ∧ initDOM engine args =
            (pre_effects args ++ start_effects args (window j), Ok j)
        ∧ readyState j = Dom.loading_doc ∧ env j = args)
  ∨ (∃ e, mount engine props =
          {| doms := [];
             comp := {| backendState := loading_state; loadCycleId_cell := 0;
                        memo_deps := args; memo_dom := 0;
                        ref := {| dom := 0; captured_loadCycleId := 0;
                                  captured_backendState := loading_state |} |};
             log := tag 0 (pre_effects args ++ [Raised e]);
             crashed := Some e |}).
Proof.
  intros args. unfold mount. fold args.
  destruct (initDOM_cases args) as [(j & E & Hrs & Henv)|(e & E)]; rewrite E.
  - left. exists j. unfold perform. simpl.
    unfold args at 1 2. rewrite commit_initDOM. done.
  - right. by exists e.
Qed.

Lemma built_mount props : built (mount engine props).
Proof.
  destruct (mount_cases props) as [(j & -> & _ & _ & Henv)|(e & ->)].
  - intros d j' [-> <-]%list_lookup_singleton_Some. eauto.
  - intros d j' Hj. done.
Qed.

(** State setters leave the memo cell and the handle alone. *)
Lemma commit_cells es c :
  memo_deps (commit es c) = memo_deps c
  ∧ memo_dom (commit es c) = memo_dom c
  ∧ ref (commit es c) = ref c.
Proof.
  unfold commit. revert c. induction es as [|e es IH]; intros c; [done|].
  simpl. destruct (IH (set_state c e)) as (-> & -> & ->). by destruct e.
Qed.

Lemma handle_current_commit es ds c l cr :
  handle_current {| doms := ds; comp := c; log := l; crashed := cr |} →
  ∀ l', handle_current
          {| doms := ds; comp := commit es c; log := l'; crashed := cr |}.
Proof.
  unfold handle_current. simpl. intros H l'.
  destruct (commit_cells es c) as (-> & -> & ->). done.
Qed.

(** Entries made on behalf of a DOM yet to be built are those of stray
    handle calls. *)
Lemma tags_bounded_fresh w :
  tags_bounded w →
  Forall (λ x, x.1 = length (doms w) → is_handle_effect x.2 = true) (log w).
Proof.
  intros H. eapply Forall_impl; [exact H|]. simpl. intros x Hx E.
  destruct (is_handle_effect x.2); [done|]. specialize (Hx eq_refl). lia.
Qed.

Lemma tags_transition w w' :
  transition engine w w' → crashed w' = None → tags_bounded w → tags_bounded w'.
Proof.
  intros Ht Hc Hb. unfold tags_bounded in *.
  destruct Ht as [|d0 j0 wnd rs es Hj0 _ _|d0 j0 Hj0 _|d0 es Hes|
                  |props jn args _ _ _|props e args]; simpl in *; try done.
  - rewrite length_insert. apply Forall_app. split; [done|].
    apply Forall_tag, Forall_forall. intros e _ _. simpl.
    by eapply lookup_lt_Some.
  - rewrite length_insert. apply Forall_app. split; [done|].
    apply Forall_tag, Forall_forall. intros e _ _. simpl.
    by eapply lookup_lt_Some.
  - apply Forall_app. split; [done|].
    apply Forall_tag. eapply Forall_impl; [exact Hes|].
    simpl. intros e He Hf. by rewrite Hf in He.
  - rewrite length_app. simpl. apply Forall_app. split.
    + eapply Forall_impl; [exact Hb|]. intros x Hx Hf. specialize (Hx Hf). lia.
    + apply Forall_tag, Forall_forall. intros e _ _. simpl. lia.
Qed.

Lemma quiet_transition w w' :
  transition engine w w' → crashed w' = None → built w → tags_bounded w →
  quiet_before_load w → quiet_before_load w'.
Proof.
  intros Ht Hc Hbuilt Hb Hq d j.
  destruct Ht as [|d0 j0 wnd rs es Hj0 Hes Hrs0|d0 j0 Hj0 Hrs0|d0 es Hes|
                  |props jn args _ _ Henv|props e args]; simpl in *; try done.
  - by apply Hq.
  - intros Hj Hrs. rewrite on_dom_app, (on_dom_tag_none _ _ _ es), app_nil_r.
    2:{ eapply Forall_impl; [exact Hes|]. apply script_not_load. }
    apply list_lookup_insert_Some in Hj as [(-> & <- & _)|[_ Hj]].
    + apply (Hq _ _ Hj0). simpl in Hrs.
      destruct Hrs0 as [->|[-> _]]; done.
    + by apply (Hq _ _ Hj).
  - intros Hj Hrs.
    apply list_lookup_insert_Some in Hj as [(-> & <- & _)|[Hne Hj]]; [done|].
    rewrite on_dom_app, on_dom_tag_other, app_nil_r by done.
    by apply (Hq _ _ Hj).
  - intros Hj Hrs. rewrite on_dom_app, (on_dom_tag_none _ _ _ es), app_nil_r.
    2:{ eapply Forall_impl; [exact Hes|]. apply handle_not_load. }
    by apply (Hq _ _ Hj).
  - by apply Hq.
  - intros Hj Hrs. rewrite on_dom_app.
    rewrite (on_dom_tag_none _ _ _ (_ ++ _)) by apply initDOM_effects_not_load.
    rewrite app_nil_r.
    apply lookup_snoc_Some in Hj as [[_ Hj]|[-> _]].
    + by apply (Hq _ _ Hj).
    + apply on_dom_none.
      eapply Forall_impl; [by apply tags_bounded_fresh|].
      intros x Hx E. by apply handle_not_load, Is_true_true, Hx.
Qed.

Lemma started_transition w w' :
  transition engine w w' → crashed w' = None → built w → tags_bounded w →
  started_once w → started_once w'.
Proof.
  intros Ht Hc Hbuilt Hb Hs d j.
  assert (∀ j' l, doms w !! d = Some j' → env j' = env j →
            Forall (λ x : nat * effect, x.1 = d → is_start_dispatch x.2 = false) l →
            ∃ l1 wnd l2,
              log w ++ l =
                l1 ++ tag d (pre_effects (env j) ++ start_effects (env j) wnd) ++ l2
              ∧ Forall (λ x, x.1 = d → is_handle_effect x.2 = true) l1
              ∧ Forall (λ x, x.1 = d → is_start_dispatch x.2 = false) l2) as Hold.
  { intros j' l Hj' Henv Hl.
    destruct (Hs _ _ Hj') as (l1 & wnd & l2 & E & F1 & F2).
    exists l1, wnd, (l2 ++ l). rewrite E, Henv, <- !app_assoc.
    split; [done|]. split; [done|]. by apply Forall_app. }
  destruct Ht as [|d0 j0 wnd rs es Hj0 Hes Hrs0|d0 j0 Hj0 Hrs0|d0 es Hes|
                  |props jn args _ _ Henv|props e args]; simpl in *; try done.
  - by apply Hs.
  - intros Hj.
    assert (Forall (λ x : nat * effect, x.1 = d → is_start_dispatch x.2 = false)
              (tag d0 es)) as Hl.
    { apply Forall_tag. eapply Forall_impl; [exact Hes|].
      intros e He _. by apply script_not_start. }
    apply list_lookup_insert_Some in Hj as [(-> & <- & _)|[_ Hj]].
    + by apply (Hold j0).
    + by apply (Hold j).
  - intros Hj.
    assert (Forall (λ x : nat * effect, x.1 = d → is_start_dispatch x.2 = false)
              (tag d0 (load_effects (env j0) (window j0)))) as Hl.
    { apply Forall_tag. destruct (Hbuilt _ _ Hj0) as (props & n & ->).
      eapply Forall_impl; [apply load_effects_not_start|]. by intros e He _. }
    apply list_lookup_insert_Some in Hj as [(-> & <- & _)|[_ Hj]].
    + by apply (Hold j0).
    + by apply (Hold j).
  - intros Hj. apply (Hold j); [done..|].
    apply Forall_tag. eapply Forall_impl; [exact Hes|].
    intros e He _. by apply handle_not_start.
  - intros Hj. destruct (Hold j [] Hj) as (l1 & wnd & l2 & E & F); [done..|].
    rewrite app_nil_r in E. eauto.
  - intros [[Hlt Hj]|[-> <-]]%lookup_snoc_Some.
    + apply (Hold j); [done..|].
      apply Forall_tag, Forall_forall. intros e _ E. simpl in E. lia.
    + exists (log w), (window jn), []. rewrite app_nil_r, Henv.
      split; [done|]. split; [|done]. by apply tags_bounded_fresh.
Qed.

Lemma current_transition w w' :
  transition engine w w' → crashed w' = None →
  handle_current w → handle_current w'.
Proof.
  intros Ht Hc Hcur.
  assert (∀ d0 j0 x l c,
            doms w !! d0 = Some j0 → env x = env j0 →
            handle_current
              {| doms := <[d0 := x]> (doms w); comp := commit c (comp w);
                 log := l; crashed := crashed w |}) as Hins.
  { intros d0 j0 x l c Hj0 Henv. apply (handle_current_commit _ _ _ l).
    destruct Hcur as (H1 & H2 & j & Hj & H3).
    unfold handle_current. simpl. rewrite length_insert.
    split; [done|]. split; [done|].
    destruct (decide (d0 = memo_dom (comp w))) as [-> |Hne].
    - exists x. rewrite list_lookup_insert_eq by by eapply lookup_lt_Some.
      split; [done|]. rewrite Henv. congruence.
    - exists j. by rewrite list_lookup_insert_ne. }
  destruct Ht as [|d0 j0 wnd rs es Hj0 Hes Hrs0|d0 j0 Hj0 Hrs0|d0 es Hes|
                  |props jn args _ _ Henv|props e args]; simpl in *; try done.
  - by apply (Hins d0 j0 _ _ []).
  - by apply (Hins d0 j0).
  - apply (handle_current_commit _ _ _ (log w)). by destruct w.
  - destruct Hcur as (H1 & H2 & H3). done.
  - unfold handle_current. simpl. rewrite length_app. simpl.
    split; [done|]. split; [lia|].
    exists jn. by rewrite list_lookup_middle.
Qed.

Lemma healthy_mount props : healthy (mount engine props).
Proof.
  destruct (mount_cases props) as [(j & -> & _ & Hrs & Henv)|(e & ->)];
    [|done].
  intros _. split; [|split; [|split]].
  - unfold tags_bounded. simpl. apply Forall_tag, Forall_forall.
    intros e _ _. simpl. lia.
  - intros d j' [-> <-]%list_lookup_singleton_Some _. simpl.
    apply on_dom_tag_none, initDOM_effects_not_load.
  - intros d j' [-> <-]%list_lookup_singleton_Some. simpl.
    exists [], (window j), []. rewrite app_nil_r, Henv. done.
  - unfold handle_current. simpl. eauto.
Qed.

Lemma healthy_transition w w' :
  crashed w = None → built w → healthy w → transition engine w w' → healthy w'.
Proof.
  intros Hc Hb Hh Ht Hc'. destruct (Hh Hc) as (H1 & H2 & H3 & H4).
  split; [|split; [|split]].
  - by eapply tags_transition.
  - by eapply quiet_transition.
  - by eapply started_transition.
  - by eapply current_transition.
Qed.

Lemma healthy_run props ins : healthy (run engine (mount engine props) ins).
Proof.
  apply (run_ind healthy).
  - apply healthy_transition.
  - apply built_mount.
  - apply healthy_mount.
Qed.

Lemma built_run props ins : built (run engine (mount engine props) ins).
Proof.
  apply (run_ind built); [|apply built_mount..].
  intros w w' _ Hb _ Ht. by eapply transition_built.
Qed.

Lemma on_dom_tag_same (P : effect → bool) d es :
  on_dom P d (tag d es) = tag d (filter (λ e, P e) es).
Proof.
  induction es as [|e es IH]; [done|].
  unfold on_dom, tag in *. rewrite fmap_cons.
  destruct (P e) eqn:HP.
  - rewrite (filter_cons_True _ (d, e)).
    2:{ simpl. rewrite andb_True, bool_decide_spec, HP. done. }
    rewrite (filter_cons_True _ e) by by rewrite HP.
    by rewrite fmap_cons, IH.
  - rewrite (filter_cons_False _ (d, e)).
    2:{ simpl. rewrite andb_True, HP. by intros [_ ?]. }
    rewrite (filter_cons_False _ e); [done|].
    simpl. rewrite HP. by intros ?.
Qed.

(** *** The full-load sequence *)

Lemma step_FireLoad w d j :
  crashed w = None → doms w !! d = Some j → readyState j = Dom.interactive →
  step engine w (FireLoad d) =
  {| doms := <[d := {| window := window j; readyState := Dom.complete;
                       env := env j |}]> (doms w);
     comp := commit (load_effects (env j) (window j)) (comp w);
     log := log w ++ tag d (load_effects (env j) (window j));
     crashed := None |}.
Proof.
  intros Hc Hj Hrs. unfold step, ready. rewrite Hc, Hj. simpl. rewrite Hrs.
  unfold run_on. rewrite Hj, onLoadListener_eq. simpl.
  unfold perform. simpl. by rewrite app_nil_r, Hc.
Qed.

(** Once the document of a DOM is complete, no step adds a dispatch of
    the full-load sequence on its behalf. *)
Lemma load_dispatches_final w d j ins :
  built w → doms w !! d = Some j → readyState j = Dom.complete →
  on_dom is_load_dispatch d (log (run engine w ins))
  = on_dom is_load_dispatch d (log w).
Proof.
  intros Hb Hj Hrs.
  pose (I := λ w' : World,
          (∃ j', doms w' !! d = Some j' ∧ readyState j' = Dom.complete)
          ∧ on_dom is_load_dispatch d (log w') = on_dom is_load_dispatch d (log w)).
  enough (I (run engine w ins)) as [_ ?] by done.
  apply (run_ind I); [|done|by split; eauto].
  clear ins. intros w1 w2 Hc1 Hb1 [(j1 & Hj1 & Hrs1) Hlog] Ht.
  pose proof (lookup_lt_Some _ _ _ Hj1) as Hlt.
  destruct Ht as [|d0 j0 wnd rs es Hj0 Hes Hrs0|d0 j0 Hj0 Hrs0|d0 es Hes|
                  |props jn args _ _ Henv|props e args]; unfold I; simpl.
  - eauto.
  - rewrite on_dom_app, (on_dom_tag_none _ _ _ es), app_nil_r.
    2:{ eapply Forall_impl; [exact Hes|]. apply script_not_load. }
    split; [|done]. destruct (decide (d0 = d)) as [->|Hne].
    + rewrite list_lookup_insert_eq by done. eexists. split; [done|]. simpl.
      assert (j0 = j1) as -> by congruence.
      destruct Hrs0 as [->|[? _]]; congruence.
    + rewrite list_lookup_insert_ne by done. eauto.
  - destruct (decide (d0 = d)) as [->|Hne]; [congruence|].
    rewrite on_dom_app, on_dom_tag_other, app_nil_r by done.
    rewrite list_lookup_insert_ne by done. eauto.
  - rewrite on_dom_app, (on_dom_tag_none _ _ _ es), app_nil_r.
    2:{ eapply Forall_impl; [exact Hes|]. apply handle_not_load. }
    eauto.
  - eauto.
  - rewrite on_dom_app, on_dom_tag_other, app_nil_r by lia.
    split; [|done]. exists j1. by rewrite lookup_app_l.
  - rewrite on_dom_app, on_dom_tag_other, app_nil_r by lia. eauto.
Qed.

(** C1. In every world a mounted component can reach, when the engine
    fires [load] on a DOM whose handlers were all supplied: no dispatch
    of the full-load sequence was made for this DOM before; the listener
    calls [onLoadProgress] with progress 1, then [onLoad] (through the
    closure of the component, which first sets the status), then
    [onLoadEnd], then [onNavigationStateChange], each with the location
    and the title that the window of the DOM has at that moment; and
    whatever happens afterwards, these four stay the only dispatches of
    the sequence made for this DOM. *)
Theorem C1_load_sequence (props : Props.DOMBackendProps) (ins : list input)
    (d : nat) (j : JSDOM) (a b c e : nat) :
  let w := run engine (mount engine props) ins in
  crashed w = None →
  doms w !! d = Some j →
  readyState j = Dom.interactive →
  onLoadProgress (handlers (env j)) = Some (Host a) →
  onLoad (handlers (env j)) = Some (BackendOnLoad (Some b)) →
  onLoadEnd (handlers (env j)) = Some (Host c) →
  onNavigationStateChange (handlers (env j)) = Some (Host e) →
  let w' := step engine w (FireLoad d) in
  let ev := {| Event.url := Dom.href (Dom.location (window j));
               title := Dom.title (Dom.document (window j));
               loading := None; navigationType := Some "other";
               progress := None; data := None |} in
  let pv := {| Event.url := Dom.href (Dom.location (window j));
               title := Dom.title (Dom.document (window j));
               loading := None; navigationType := None;
               progress := Some 1; data := None |} in
  on_dom is_load_dispatch d (log w) = []
  ∧ log w' =
      log w ++
      [(d, Called SlotLoadProgress a (Wrapped (createNativeEvent pv)));
       (d, SetBackendState loaded);
       (d, Called SlotLoad b (Wrapped (createNativeEvent ev)));
       (d, Called SlotLoadEnd c (Wrapped (createNativeEvent ev)));
       (d, Called SlotNavigationStateChange e (Bare ev))]
  ∧ ∀ ins',
      on_dom is_load_dispatch d (log (run engine w' ins')) =
      [(d, Called SlotLoadProgress a (Wrapped (createNativeEvent pv)));
       (d, Called SlotLoad b (Wrapped (createNativeEvent ev)));
       (d, Called SlotLoadEnd c (Wrapped (createNativeEvent ev)));
       (d, Called SlotNavigationStateChange e (Bare ev))].
Proof.
  intros w Hc Hj Hrs Ha Hb Hc' He w' ev pv.
  destruct (healthy_run props ins Hc) as (_ & Hq & _ & _).
  assert (on_dom is_load_dispatch d (log w) = []) as Hnone.
  { apply (Hq _ _ Hj). by rewrite Hrs. }
  assert (w' = {| doms := <[d := {| window := window j;
                                    readyState := Dom.complete;
                                    env := env j |}]> (doms w);
                  comp := commit (load_effects (env j) (window j)) (comp w);
                  log := log w ++ tag d (load_effects (env j) (window j));
                  crashed := None |}) as Hw'.
  { by apply step_FireLoad. }
  assert (load_effects (env j) (window j) =
          [Called SlotLoadProgress a (Wrapped (createNativeEvent pv));
           SetBackendState loaded;
           Called SlotLoad b (Wrapped (createNativeEvent ev));
           Called SlotLoadEnd c (Wrapped (createNativeEvent ev));
           Called SlotNavigationStateChange e (Bare ev)]) as Hload.
  { unfold load_effects. by rewrite Ha, Hb, Hc', He. }
  split; [done|]. split; [by rewrite Hw', Hload|].
  intros ins'.
  assert (built w') as Hbuilt.
  { change (built (run engine (run engine (mount engine props) ins) [FireLoad d])).
    rewrite <- run_app. apply built_run. }
  assert (doms w' !! d =
          Some {| window := window j; readyState := Dom.complete; env := env j |})
    as Hj'.
  { rewrite Hw'. simpl. apply list_lookup_insert_eq. by eapply lookup_lt_Some. }
  rewrite (load_dispatches_final w' d _ ins' Hbuilt Hj') by done.
  rewrite Hw'. simpl.
  rewrite on_dom_app, Hnone, on_dom_tag_same, Hload. reflexivity.
Qed.

(** *** The start of a load *)

(** C2. For every DOM of a mounted component whose [onLoadStart] and
    [onNavigationStateChange] were supplied: [initDOM] makes the two start
    dispatches itself, after the effects of the constructor and before it
    returns a DOM whose document is still loading; and in the log of the
    component the construction of the DOM is the first thing that happens
    on its behalf (stray handle calls apart), so it precedes whatever its
    content-loaded and load listeners do, and no later entry of this DOM
    is a start dispatch.  The start event carries [loading: true], and
    the location and title of the window as parsed. *)
Theorem C2_start_dispatch (props : Props.DOMBackendProps) (ins : list input)
    (d : nat) (j : JSDOM) (a b : nat) :
  let w := run engine (mount engine props) ins in
  crashed w = None →
  doms w !! d = Some j →
  onLoadStart (handlers (env j)) = Some (Host a) →
  onNavigationStateChange (handlers (env j)) = Some (Host b) →
  let start wnd :=
    let ev := {| Event.url := Dom.href (Dom.location wnd);
                 title := Dom.title (Dom.document wnd);
                 loading := Some true; navigationType := Some "other";
                 progress := None; data := None |} in
    [Called SlotLoadStart a (Wrapped (createNativeEvent ev));
     Called SlotNavigationStateChange b (Bare ev)] in
  (∀ es j', initDOM engine (env j) = (es, Ok j') →
     es = pre_effects (env j) ++ start (window j')
     ∧ readyState j' = Dom.loading_doc)
  ∧ ∃ l1 wnd l2,
      log w = l1 ++ tag d (pre_effects (env j) ++ start wnd) ++ l2
      ∧ Forall (λ x, x.1 = d → is_handle_effect x.2 = true) l1
      ∧ Forall (λ x, x.1 = d → is_start_dispatch x.2 = false) l2.
Proof.
  intros w Hc Hj Ha Hb start.
  assert (∀ wnd, start_effects (env j) wnd = start wnd) as Hstart.
  { intros wnd. unfold start_effects. by rewrite Ha, Hb. }
  split.
  - intros es j' E.
    destruct (initDOM_cases (env j)) as [(j0 & E0 & Hrs & _)|(e0 & E0)];
      rewrite E0 in E; [|done].
    injection E as <- <-. by rewrite Hstart.
  - destruct (healthy_run props ins Hc) as (_ & _ & Hs & _).
    destruct (Hs _ _ Hj) as (l1 & wnd & l2 & E & F1 & F2).
    exists l1, wnd, l2. by rewrite <- Hstart.
Qed.

(** *** The handle and the current DOM *)

(** C10. As long as the component has not crashed, the handle in
    [ref.current] has a property [dom], next to its methods, and this
    property is the DOM of the memo cell, the newest DOM built, made from
    the memoised dependencies; [getWindow] and [getDocument] read the
    window of this very DOM. *)
Theorem C10_handle_dom (props : Props.DOMBackendProps) (ins : list input) :
  let w := run engine (mount engine props) ins in
  crashed w = None →
  let h := ref (comp w) in
  dom h = memo_dom (comp w)
  ∧ S (dom h) = length (doms w)
  ∧ ∃ j, doms w !! dom h = Some j
         ∧ env j = memo_deps (comp w)
         ∧ getWindow h w = Some (window j)
         ∧ getDocument h w = Some (Dom.document (window j)).
Proof.
  intros w Hc h.
  destruct (healthy_run props ins Hc) as (_ & _ & _ & H1 & H2 & j & Hj & Henv).
  subst h w. unfold getDocument, getWindow. rewrite H1.
  split; [done|]. split; [done|]. exists j. by rewrite Hj.
Qed.


(** *** The status *)

(** The load listener of a DOM of the component sets the status, and
    nothing after it in the listener sets it back. *)
Lemma commit_load props n wnd c :
  backendState (commit (load_effects (initDOM_args props n) wnd) c) = loaded.
Proof.
  unfold load_effects. simpl.
  destruct (onLoadProgress _), (onLoad _), (onLoadEnd _),
    (onNavigationStateChange _); reflexivity.
Qed.

Lemma commit_handle_status es c :
  Forall (λ e, is_handle_effect e) es →
  backendState (commit es c) = backendState c.
Proof.
  unfold commit. intros H. revert c.
  induction H as [|e es He _ IH]; intros c; [done|].
  simpl. rewrite IH. by destruct e.
Qed.

Lemma transition_status w w' :
  transition engine w w' → built w →
  backendState (comp w') = backendState (comp w)
  ∨ backendState (comp w') = loaded.
Proof.
  intros Ht Hb.
  destruct Ht as [|d0 j0 wnd rs es Hj0 Hes Hrs0|d0 j0 Hj0 Hrs0|d0 es Hes|
                  |props jn args _ _ Henv|props e args]; simpl; auto.
  - right. destruct (Hb _ _ Hj0) as (props & n & ->). apply commit_load.
  - left. by apply commit_handle_status.
Qed.

Lemma run_on_script_comp w d j rs (m : InitDOMParams → M unit) :
  doms w !! d = Some j →
  emits is_script_effect (m (env j)) →
  comp (run_on d rs m w) = comp w.
Proof.
  intros Hj Hm. unfold run_on. rewrite Hj.
  destruct (Hm {| st_window := window j; st_log := [] |}) as (es & E & F).
  destruct (m (env j) _) as [s r]. simpl in *. subst es.
  apply commit_script, Forall_app. split; [done|].
  destruct r; repeat constructor.
Qed.

Lemma invoke_status w h m :
  built w →
  backendState (comp (invoke engine h m w)) = backendState (comp w).
Proof.
  intros Hb. destruct m; simpl; try done.
  destruct (captured_backendState h); [done|].
  unfold ready. destruct (doms w !! dom h) as [j|] eqn:Hj; [|done]. simpl.
  erewrite run_on_script_comp; [done..|].
  destruct (Hb _ _ Hj) as (props & n & ->). apply window_eval_emits.
Qed.

Lemma render_status w props :
  backendState (comp (render engine props w)) = backendState (comp w).
Proof.
  unfold render. case_decide; [done|].
  destruct (initDOM_cases (initDOM_args props (loadCycleId_cell (comp w))))
    as [(j & E & _)|(e & E)]; rewrite E; simpl; [|done].
  by rewrite commit_initDOM.
Qed.

(** Only the [load] event of a DOM changes the status. *)
Lemma step_status_other w i :
  built w → (∀ d, i ≠ FireLoad d) →
  backendState (comp (step engine w i)) = backendState (comp w).
Proof.
  intros Hb Hi. unfold step. destruct (crashed w); [done|].
  destruct i as [d|d|d ops|props|h m|m].
  - unfold ready. destruct (doms w !! d) as [j|] eqn:Hj; [|done]. simpl.
    destruct (readyState j); try done.
    erewrite run_on_script_comp; [done..|].
    destruct (Hb _ _ Hj) as (props & n & ->). apply onDOMContentLoaded_emits.
  - by destruct (Hi d).
  - unfold ready. destruct (doms w !! d) as [j|] eqn:Hj; [|done]. simpl.
    erewrite run_on_script_comp; [done..|].
    destruct (Hb _ _ Hj) as (props & n & ->).
    destruct (truthy_bool _); [apply exec_ops_emits|apply emits_ret].
  - apply render_status.
  - by apply invoke_status.
  - by apply invoke_status.
Qed.

(** C5, amended. The status is [loading_state] after the first render;
    the [load] event of a DOM of the component makes it [loaded]; no
    other event changes it; and once [loaded] it stays [loaded] through
    every later event, reloads and renders with new props included: it is
    never reset. *)
Theorem C5_status_never_reset (props : Props.DOMBackendProps) :
  backendState (comp (mount engine props)) = loading_state
  ∧ (∀ ins d j,
       let w := run engine (mount engine props) ins in
       crashed w = None → doms w !! d = Some j →
       readyState j = Dom.interactive →
       backendState (comp (step engine w (FireLoad d))) = loaded)
  ∧ (∀ ins i,
       let w := run engine (mount engine props) ins in
       backendState (comp (step engine w i)) ≠ backendState (comp w) →
       ∃ d, i = FireLoad d)
  ∧ (∀ ins ins',
       backendState (comp (run engine (mount engine props) ins)) = loaded →
       backendState (comp (run engine (mount engine props) (ins ++ ins')))
       = loaded).
Proof.
  split; [|split; [|split]].
  - by destruct (mount_cases props) as [(j & -> & _)|(e & ->)].
  - intros ins d j w Hc Hj Hrs.
    rewrite (step_FireLoad _ _ _ Hc Hj Hrs). simpl.
    destruct (built_run props ins _ _ Hj) as (props' & n & ->).
    apply commit_load.
  - intros ins i w Hne.
    destruct i as [d|d|d ops|props'|h m|m]; eauto;
      destruct Hne; apply step_status_other; try done; apply built_run.
  - intros ins ins' Hl. rewrite run_app.
    apply (run_ind (λ w, backendState (comp w) = loaded));
      [|apply built_run|done].
    intros w w' _ Hb HI Ht.
    destruct (transition_status _ _ Ht Hb) as [E|E]; by rewrite E.
Qed.

(** *** Reloading *)

(** [initDOM] does not read [loadCycleId]. *)
Lemma exec_ops_cycle props n m bound ops s :
  exec_ops (initDOM_args props n) bound ops s
  = exec_ops (initDOM_args props m) bound ops s.
Proof.
  revert s. induction ops as [|op ops IH]; intros s; [done|].
  simpl. unfold bind.
  assert (exec_op (initDOM_args props n) bound op s
          = exec_op (initDOM_args props m) bound op s) as -> by by destruct op.
  destruct (exec_op _ _ _ _) as [s1 [[]|e]]; [apply IH|done].
Qed.

Lemma new_JSDOM_cycle props n m s :
  new_JSDOM engine (initDOM_args props n) s
  = new_JSDOM engine (initDOM_args props m) s.
Proof.
  unfold new_JSDOM, beforeParse, window_eval, bind. simpl.
  destruct (truthy_string _); [|done].
  by rewrite (exec_ops_cycle props n m).
Qed.

Lemma initDOM_cycle props n m es j :
  initDOM engine (initDOM_args props m) = (es, Ok j) →
  initDOM engine (initDOM_args props n)
  = (es, Ok {| window := window j; readyState := readyState j;
               env := initDOM_args props n |}).
Proof.
  unfold initDOM, bind.
  rewrite (new_JSDOM_cycle props n m).
  change (init_state (initDOM_args props n))
    with (init_state (initDOM_args props m)).
  destruct (new_JSDOM _ _ _) as [s1 [[]|e]]; [|done].
  change (dispatchStart (initDOM_args props n) s1)
    with (dispatchStart (initDOM_args props m) s1).
  destruct (dispatchStart _ _) as [s2 [[]|e]]; [|done].
  by intros [= <- <-].
Qed.

(** A render after the load cycle was set to the next one builds a DOM
    for it. *)
Lemma render_next props n w es0 j0 :
  crashed w = None →
  memo_deps (comp w) = initDOM_args props n →
  loadCycleId_cell (comp w) = S n →
  initDOM engine (initDOM_args props 0) = (es0, Ok j0) →
  let w' := step engine w (Render props) in
  settled props (S n) w'
  ∧ doms w' = doms w ++ [{| window := window j0; readyState := readyState j0;
                            env := initDOM_args props (S n) |}].
Proof.
  intros Hc Hdeps Hcell E0 w'.
  pose proof (initDOM_cycle props (S n) 0 _ _ E0) as E.
  assert (es0 = pre_effects (initDOM_args props (S n)) ++
                start_effects (initDOM_args props (S n)) (window j0)) as Hes.
  { destruct (initDOM_cases (initDOM_args props (S n)))
      as [(j & E' & _)|(e & E')]; rewrite E' in E; [|done].
    injection E as Hes Hj. rewrite Hj in Hes. by rewrite <- Hes. }
  subst w'. unfold step. rewrite Hc. unfold render. rewrite Hcell.
  case_decide as Hdec.
  { rewrite Hdeps in Hdec. apply (f_equal loadCycleId) in Hdec. simpl in Hdec. lia. }
  rewrite E. unfold perform, settled. simpl.
  rewrite Hes, commit_initDOM. simpl. by rewrite Hcell.
Qed.

(** [reload()] on the handle of load cycle [n] sets the load cycle to
    [n + 1], however often it is called before the next render. *)
Lemma stale_reloads props n w m :
  crashed w = None →
  memo_deps (comp w) = initDOM_args props n →
  captured_loadCycleId (ref (comp w)) = n →
  let w' := run engine w (replicate (S m) (InvokeCurrent Reload)) in
  crashed w' = None
  ∧ doms w' = doms w
  ∧ memo_deps (comp w') = initDOM_args props n
  ∧ captured_loadCycleId (ref (comp w')) = n
  ∧ loadCycleId_cell (comp w') = S n.
Proof.
  intros Hc Hdeps Hcap w'. subst w'.
  assert (∀ w1, crashed w1 = None → captured_loadCycleId (ref (comp w1)) = n →
            step engine w1 (InvokeCurrent Reload) =
            {| doms := doms w1;
               comp := {| backendState := backendState (comp w1);
                          loadCycleId_cell := S n;
                          memo_deps := memo_deps (comp w1);
                          memo_dom := memo_dom (comp w1);
                          ref := ref (comp w1) |};
               log := log w1 ++ [(dom (ref (comp w1)), SetLoadCycleId (S n))];
               crashed := None |}) as Hstep.
  { intros w1 Hc1 Hcap1. unfold step. rewrite Hc1. simpl. unfold perform. simpl.
    by rewrite Hcap1, Nat.add_1_r, Hc1. }
  revert w Hc Hdeps Hcap. induction m as [|m IH]; intros w Hc Hdeps Hcap.
  - unfold run. simpl. by rewrite Hstep.
  - rewrite replicate_S, run_cons, Hstep by done.
    match goal with |- context [run engine ?w1 _] =>
      destruct (IH w1) as (H1 & H2 & H3 & H4 & H5); [done..|] end.
    done.
Qed.

(** One round: [reload()] on the current handle, then a render. *)
Lemma reload_round props n w es0 j0 :
  settled props n w →
  initDOM engine (initDOM_args props 0) = (es0, Ok j0) →
  let w' := run engine w [InvokeCurrent Reload; Render props] in
  settled props (S n) w'
  ∧ doms w' = doms w ++ [{| window := window j0; readyState := readyState j0;
                            env := initDOM_args props (S n) |}].
Proof.
  intros (Hc & Hcell & Hdeps & Hcap) E0 w'.
  destruct (stale_reloads props n w 0 Hc Hdeps Hcap) as (H1 & H2 & H3 & _ & H5).
  destruct (render_next props n _ es0 j0 H1 H3 H5 E0) as [Hs Hd].
  subst w'. change [InvokeCurrent Reload; Render props]
    with (replicate 1 (InvokeCurrent Reload) ++ [Render props]).
  rewrite run_app. split; [done|]. by rewrite <- H2.
Qed.

Lemma reloads_S props n :
  reloads props (S n) = [InvokeCurrent Reload; Render props] ++ reloads props n.
Proof. reflexivity. Qed.

Lemma reload_rounds props N : ∀ n w es0 j0,
  settled props n w →
  initDOM engine (initDOM_args props 0) = (es0, Ok j0) →
  let w' := run engine w (reloads props N) in
  settled props (n + N) w'
  ∧ ∃ new, doms w' = doms w ++ new ∧ length new = N
      ∧ ∀ k, k < N →
          ∃ j, new !! k = Some j ∧ env j = initDOM_args props (n + 1 + k)
               ∧ readyState j = readyState j0.
Proof.
  induction N as [|N IH]; intros n w es0 j0 Hs E0 w'; subst w'.
  - simpl. rewrite Nat.add_0_r. split; [done|]. exists []. rewrite app_nil_r.
    split; [done|]. split; [done|]. intros k Hk. lia.
  - rewrite reloads_S, run_app.
    destruct (reload_round props n w es0 j0 Hs E0) as [Hs1 Hd1].
    destruct (IH (S n) _ es0 j0 Hs1 E0) as (Hs2 & new & Hd2 & Hlen & Hnew).
    replace (n + S N) with (S n + N) by lia. split; [done|].
    eexists (_ :: new). rewrite Hd2, Hd1, <- app_assoc. simpl.
    split; [done|]. split; [by rewrite Hlen|].
    intros [|k] Hk; simpl.
    + eexists. split; [done|]. simpl. rewrite Nat.add_0_r, Nat.add_1_r. done.
    + destruct (Hnew k) as (j & Hj & Henv & Hrs); [lia|].
      exists j. split; [done|]. split; [|done].
      rewrite Henv. f_equal. lia.
Qed.

Lemma start_dispatches_of w d j :
  started_once w → built w → doms w !! d = Some j →
  ∃ wnd, on_dom is_start_dispatch d (log w) = tag d (start_effects (env j) wnd).
Proof.
  intros Hs Hb Hj.
  destruct (Hs _ _ Hj) as (l1 & wnd & l2 & E & F1 & F2).
  destruct (Hb _ _ Hj) as (props & n & Henv).
  exists wnd. rewrite E, !on_dom_app.
  rewrite (on_dom_none _ _ l2) by done.
  rewrite (on_dom_none _ _ l1).
  2:{ eapply Forall_impl; [exact F1|]. intros x Hx Ex.
      by apply handle_not_start, Is_true_true, Hx. }
  unfold tag at 1. rewrite fmap_app. fold (tag d (pre_effects (env j))).
  fold (tag d (start_effects (env j) wnd)).
  rewrite on_dom_app, (on_dom_tag_none _ _ _ (pre_effects _)).
  2:{ eapply Forall_impl; [apply pre_effects_script|]. apply script_not_start. }
  rewrite on_dom_tag_all, app_nil_r; [done|].
  rewrite Henv. apply start_effects_built.
Qed.

Lemma step_FireDOMContentLoaded w d j :
  crashed w = None → built w → doms w !! d = Some j →
  readyState j = Dom.loading_doc →
  ∃ wnd es,
    step engine w (FireDOMContentLoaded d) =
    {| doms := <[d := {| window := wnd; readyState := Dom.interactive;
                         env := env j |}]> (doms w);
       comp := comp w; log := log w ++ tag d es; crashed := None |}
    ∧ Forall (λ e, is_script_effect e) es.
Proof.
  intros Hc Hb Hj Hrs. unfold step, ready. rewrite Hc, Hj. simpl. rewrite Hrs.
  unfold run_on. rewrite Hj.
  destruct (Hb _ _ Hj) as (props & n & Henv).
  destruct (onDOMContentLoaded_emits props n
              {| st_window := window j; st_log := [] |}) as (es & E & F).
  rewrite <- Henv in E.
  destruct (onDOMContentLoaded engine (env j) _) as [s r]. simpl in E. subst es.
  assert (Forall (λ e, is_script_effect e) (st_log s ++ raised r)) as F'.
  { apply Forall_app. split; [done|]. destruct r; repeat constructor. }
  exists (st_window s), (st_log s ++ raised r).
  unfold perform. simpl. by rewrite commit_script, Hc.
Qed.

(** C6, amended. After [n] rounds of [reload()] on the current handle,
    each followed by a render, the component has built [n] further DOMs:
    the DOM at position [k] was built for load cycle [k], so the cycles
    count up from 0 by one; each is built in the ready state loading with
    its start dispatches made once, and when the engine then fires its
    events the load listener makes the dispatches of the full-load
    sequence for it.  The counter and the handle end at cycle [n].  Calls
    of [reload()] with no render in between all ask for the same next
    cycle: however many there are, the render that follows builds one
    DOM. *)
Theorem C6_reload_rounds (props : Props.DOMBackendProps) (n : nat) :
  crashed (mount engine props) = None →
  let w := run engine (mount engine props) (reloads props n) in
  crashed w = None
  ∧ length (doms w) = S n
  ∧ loadCycleId_cell (comp w) = n
  ∧ dom (ref (comp w)) = n
  ∧ (∀ k : nat, (k ≤ n)%nat →
      ∃ j wnd wnd' es,
        doms w !! k = Some j
        ∧ loadCycleId (env j) = k
        ∧ env j = initDOM_args props k
        ∧ readyState j = Dom.loading_doc
        ∧ on_dom is_start_dispatch k (log w)
          = tag k (start_effects (initDOM_args props k) wnd)
        ∧ log (run engine w [FireDOMContentLoaded k; FireLoad k])
          = log w ++ tag k es ++ tag k (load_effects (initDOM_args props k) wnd'))
  ∧ ∀ m,
      length (doms (run engine (mount engine props)
                      (replicate (S m) (InvokeCurrent Reload) ++ [Render props])))
      = 2.
Proof.
  intros Hm w.
  destruct (mount_cases props) as [(j0 & Emount & E0 & Hrs0 & Henv0)|(e & Ecr)];
    [|by rewrite Ecr in Hm].
  assert (settled props 0 (mount engine props)) as Hs0 by by rewrite Emount.
  destruct (reload_rounds props n 0 _ _ _ Hs0 E0)
    as ((Hc & Hcell & Hdeps & Hcap) & new & Hd & Hlen & Hnew).
  fold w in Hc, Hcell, Hdeps, Hcap, Hd.
  assert (doms w = j0 :: new) as Hdoms by by rewrite Hd, Emount.
  destruct (healthy_run props (reloads props n) Hc) as (_ & _ & Hst & Hcur).
  fold w in Hst, Hcur.
  pose proof (built_run props (reloads props n)) as Hb. fold w in Hb.
  split; [done|]. split; [by rewrite Hdoms; simpl; rewrite Hlen|].
  split; [done|]. split.
  { destruct Hcur as (H1 & H2 & _). rewrite Hdoms in H2. simpl in H2.
    rewrite H1. lia. }
  split.
  2:{ intros m. rewrite run_app.
      destruct Hs0 as (Hc0 & _ & Hdeps0 & Hcap0).
      destruct (stale_reloads props 0 _ m Hc0 Hdeps0 Hcap0)
        as (H1 & H2 & H3 & _ & H5).
      destruct (render_next props 0 _ _ _ H1 H3 H5 E0) as [_ Hd'].
      change (length (doms (step engine
                (run engine (mount engine props)
                   (replicate (S m) (InvokeCurrent Reload)))
                (Render props))) = 2).
      rewrite Hd', H2, Emount. done. }
  intros k Hk.
  assert (∃ j, doms w !! k = Some j ∧ env j = initDOM_args props k
               ∧ readyState j = Dom.loading_doc) as (j & Hj & Henv & Hrs).
  { rewrite Hdoms. destruct k as [|k]; simpl.
    - exists j0. by rewrite Henv0.
    - destruct (Hnew k) as (j & Hj & Henv & Hrs); [lia|].
      exists j. split; [done|]. split; [|congruence].
      rewrite Henv. f_equal. }
  destruct (start_dispatches_of w k j Hst Hb Hj) as (wnd & Hstart).
  destruct (step_FireDOMContentLoaded w k j Hc Hb Hj Hrs) as (wnd' & es & E1 & _).
  exists j, wnd, wnd', es.
  split; [done|]. split; [by rewrite Henv|]. split; [done|]. split; [done|].
  split; [by rewrite <- Henv|].
  unfold run. simpl. rewrite E1.
  rewrite (step_FireLoad _ k
             {| window := wnd'; readyState := Dom.interactive; env := env j |}).
  - simpl. by rewrite Henv, <- app_assoc.
  - done.
  - simpl. apply list_lookup_insert_eq. by eapply lookup_lt_Some.
  - done.
Qed.

(** *** Messages *)

(** Once [beforeParse] has installed the bridge, the two names reach the
    same function. *)
Lemma bridge_names_agree p bound v s :
  Dom.postMessage (st_window s) = Dom.BridgePostMessage →
  Dom.ReactNativeWebView (st_window s) = Some Dom.BridgePostMessage →
  exec_op p bound (Dom.PostMessage v) s = postMessage p bound v s
  ∧ exec_op p bound (Dom.RNPostMessage v) s = postMessage p bound v s.
Proof.
  intros H1 H2. unfold exec_op, bind, get_window. simpl. by rewrite H1, H2.
Qed.

(** A script that runs before the content is loaded and posts a string,
    while [onMessage] is supplied, makes the constructor throw: the
    message is not delivered and [initDOM] returns no DOM. *)
Lemma early_message_throws p script m f :
  injectedJavaScriptBeforeContentLoaded p = Some script → script ≠ "" →
  interp engine script = [Dom.RNPostMessage (Dom.JString m)] →
  onMessage (handlers p) = Some f →
  initDOM engine p =
  ([Eval script],
   Throw (ReferenceError "Cannot access 'dom' before initialization")).
Proof.
  intros Hs Hne Hi Hf.
  unfold initDOM, new_JSDOM, beforeParse.
  rewrite Hs, truthy_string_nonempty by done.
  unfold window_eval. rewrite Hi. simpl.
  unfold bind, emit, modify_window, get_window, postMessage. simpl.
  rewrite Hf. reflexivity.
Qed.

End Properties.

(** * The properties at work on the demo page *)

(** C7. The message posted by the script that runs before the content is
    loaded is not delivered: [initDOM] throws after evaluating the
    script, the component crashes in its first render, and [onMessage]
    is never called. *)
Theorem C7_early_message_is_lost :
  initDOM demo_engine (initDOM_args early_props 0) =
    ([Eval "window.ReactNativeWebView.postMessage('hello')"],
     Throw (ReferenceError "Cannot access 'dom' before initialization"))
  ∧ crashed (mount demo_engine early_props) =
      Some (ReferenceError "Cannot access 'dom' before initialization")
  ∧ log (mount demo_engine early_props) =
      [(0, Eval "window.ReactNativeWebView.postMessage('hello')");
       (0, Raised (ReferenceError "Cannot access 'dom' before initialization"))].
Proof. by vm_compute. Qed.

(** The same message posted by the script injected on content-loaded is
    delivered, with the posted string as [data]. *)
Example late_message_is_delivered :
  log (run demo_engine (mount demo_engine demo_props) [FireDOMContentLoaded 0]) =
  log (mount demo_engine demo_props) ++
  [(0, Eval "window.ReactNativeWebView.postMessage('hello')");
   (0, Called SlotMessage 1
         (Wrapped (createNativeEvent
            {| Event.url := "https://example.org/"; title := "Home";
               loading := None; navigationType := None; progress := None;
               data := Some "hello" |})))].
Proof. by vm_compute. Qed.

(** A reload after the load: a second DOM is built and the status is
    still [loaded]. *)
Lemma C5_counterexample :
  ¬ (∀ (engine : Engine) (props : Props.DOMBackendProps) (ins : list input)
       (i : input),
       let w := run engine (mount engine props) ins in
       length (doms (step engine w i)) = S (length (doms w)) →
       backendState (comp (step engine w i)) = loading_state).
Proof.
  intros H.
  specialize (H demo_engine demo_props
                [FireDOMContentLoaded 0; FireLoad 0; InvokeCurrent Reload]
                (Render demo_props)).
  vm_compute in H. by specialize (H eq_refl).
Qed.

(** Two calls of [reload()] before React renders: one more DOM, not two. *)
Lemma C6_counterexample :
  ¬ (∀ (engine : Engine) (props : Props.DOMBackendProps) (n : nat),
       crashed (mount engine props) = None →
       length (doms (run engine (mount engine props)
                       (replicate n (InvokeCurrent Reload) ++ [Render props])))
       = S n).
Proof.
  intros H. specialize (H demo_engine demo_props 2).
  vm_compute in H. by specialize (H eq_refl).
Qed.

(** ** Instances *)

Lemma C1_load_sequence_witness :
  let w := run demo_engine (mount demo_engine demo_props)
             [FireDOMContentLoaded 0; PageScript 0 [Dom.SetTitle "later"]] in
  let ev := {| Event.url := "https://example.org/"; title := "later";
               loading := None; navigationType := Some "other";
               progress := None; data := None |} in
  let pv := {| Event.url := "https://example.org/"; title := "later";
               loading := None; navigationType := None;
               progress := Some 1; data := None |} in
  log (step demo_engine w (FireLoad 0)) =
  log w ++
  [(0, Called SlotLoadProgress 4 (Wrapped (createNativeEvent pv)));
   (0, SetBackendState loaded);
   (0, Called SlotLoad 2 (Wrapped (createNativeEvent ev)));
   (0, Called SlotLoadEnd 5 (Wrapped (createNativeEvent ev)));
   (0, Called SlotNavigationStateChange 6 (Bare ev))].
Proof.
  refine (proj1 (proj2
    (C1_load_sequence demo_engine demo_props
       [FireDOMContentLoaded 0; PageScript 0 [Dom.SetTitle "later"]]
       0 (demo_dom "later" Dom.interactive) 4 2 5 6 _ _ _ _ _ _ _)));
    vm_compute; reflexivity.
Defined.

Lemma C2_start_dispatch_witness :
  let w := run demo_engine (mount demo_engine demo_props)
             [FireDOMContentLoaded 0; FireLoad 0] in
  let args := initDOM_args demo_props 0 in
  let start wnd :=
    let ev := {| Event.url := Dom.href (Dom.location wnd);
                 title := Dom.title (Dom.document wnd);
                 loading := Some true; navigationType := Some "other";
                 progress := None; data := None |} in
    [Called SlotLoadStart 3 (Wrapped (createNativeEvent ev));
     Called SlotNavigationStateChange 6 (Bare ev)] in
  ∃ l1 wnd l2,
    log w = l1 ++ tag 0 (pre_effects args ++ start wnd) ++ l2
    ∧ Forall (λ x, x.1 = 0 → is_handle_effect x.2 = true) l1
    ∧ Forall (λ x, x.1 = 0 → is_start_dispatch x.2 = false) l2.
Proof.
  refine (proj2
    (C2_start_dispatch demo_engine demo_props
       [FireDOMContentLoaded 0; FireLoad 0]
       0 (demo_dom "Home" Dom.complete) 3 6 _ _ _ _));
    vm_compute; reflexivity.
Defined.



Lemma C5_status_never_reset_witness :
  let w0 := mount demo_engine demo_props in
  backendState (comp (step demo_engine
                        (run demo_engine w0 [FireDOMContentLoaded 0])
                        (FireLoad 0))) = loaded
  ∧ (∃ d, FireLoad 0 = FireLoad d)
  ∧ backendState
      (comp (run demo_engine w0
               ([FireDOMContentLoaded 0; FireLoad 0] ++
                [InvokeCurrent Reload; Render demo_props]))) = loaded.
Proof.
  intros w0.
  destruct (C5_status_never_reset demo_engine demo_props) as (_ & H2 & H3 & H4).
  split; [|split].
  - apply (H2 [FireDOMContentLoaded 0] 0 (demo_dom "Home" Dom.interactive));
      vm_compute; reflexivity.
  - apply (H3 [FireDOMContentLoaded 0] (FireLoad 0)). vm_compute. discriminate.
  - apply H4. vm_compute. reflexivity.
Defined.

Lemma C6_reload_rounds_witness :
  let w := run demo_engine (mount demo_engine demo_props) (reloads demo_props 2) in
  length (doms w) = 3 ∧ loadCycleId_cell (comp w) = 2.
Proof.
  intros w.
  destruct (C6_reload_rounds demo_engine demo_props 2) as (_ & H1 & H2 & _).
  - vm_compute. reflexivity.
  - split; [exact H1|exact H2].
Defined.

Lemma C8_missing_handlers_witness :
  let s := init_state bare_params in
  postMessage bare_params false (Dom.JString "hello") s = (s, Ok tt)
  ∧ dispatchStart bare_params s = (s, Ok tt)
  ∧ onLoadListener bare_params s = (s, Ok tt).
Proof.
  intros s.
  destruct (C8_missing_handlers bare_params s)
    as (_ & _ & _ & _ & _ & H1 & H2 & H3).
  split; [|split].
  - apply H1. reflexivity.
  - apply H2; reflexivity.
  - apply H3; reflexivity.
Defined.

Lemma C10_handle_dom_witness :
  let w := run demo_engine (mount demo_engine demo_props)
             [InvokeCurrent Reload; Render demo_props] in
  dom (ref (comp w)) = memo_dom (comp w) ∧ S (dom (ref (comp w))) = length (doms w).
Proof.
  intros w.
  destruct (C10_handle_dom demo_engine demo_props
              [InvokeCurrent Reload; Render demo_props]) as (H1 & H2 & _).
  - vm_compute. reflexivity.
  - split; [exact H1|exact H2].
Defined.

(** * More of the component *)

Section Coverage.

Variable engine : Engine.

(** ** The rendered element *)

(** X1. The outer [testID] tells the status and the load cycle apart: two
    renders show the same one only if both agree.  The tree holds the id
    [backend-loaded-n] exactly when the status is loaded, but the id
    [backend-loading-n] in either status: while loading it is the outer
    view, once loaded it is the inner one. *)
Theorem X1_rendered_testIDs :
  (∀ s n s' n',
     testID_of (output s n) = testID_of (output s' n') → s = s' ∧ n = n')
  ∧ (∀ s n, "backend-loading-" +:+ pretty n ∈ testIDs (output s n))
  ∧ (∀ s n, "backend-loaded-" +:+ pretty n ∈ testIDs (output s n) ↔ s = loaded).
Proof.
  split; [|split].
  - intros s n s' n' H. destruct s, s'; simpl in H; try done.
    + injection H as H. simpl in H. split; [done|]. by apply (inj pretty).
    + injection H as H. simpl in H. split; [done|]. by apply (inj pretty).
  - intros [] n; simpl.
    + apply elem_of_cons. by left.
    + apply elem_of_cons. right. apply elem_of_cons. by left.
  - intros [] n; simpl; split; try done.
    + intros [H|H%elem_of_nil]%elem_of_cons; done.
    + intros _. apply elem_of_cons. by left.
Qed.

(** ** Renders and the memoised DOM *)

Lemma fmap_Host_inj (a b : option nat) : Host <$> a = Host <$> b → a = b.
Proof. destruct a, b; simpl; congruence. Qed.

(** The dependency list tells apart any two props and any two load
    cycles. *)
Lemma initDOM_args_inj p1 n1 p2 n2 :
  initDOM_args p1 n1 = initDOM_args p2 n2 → p1 = p2 ∧ n1 = n2.
Proof.
  destruct p1 as [h1 u1 i1 b1 j1 a1 [m1 l1 s1 g1 e1 v1]].
  destruct p2 as [h2 u2 i2 b2 j2 a2 [m2 l2 s2 g2 e2 v2]].
  unfold initDOM_args. simpl. intros [= -> -> -> -> -> -> Hm -> Hs Hg He Hv ->].
  apply fmap_Host_inj in Hm, Hs, Hg, He, Hv. by subst.
Qed.

(** The two ways a render can end without throwing. *)
Lemma render_kept w props :
  crashed w = None →
  initDOM_args props (loadCycleId_cell (comp w)) = memo_deps (comp w) →
  step engine w (Render props) =
  {| doms := doms w;
     comp := {| backendState := backendState (comp w);
                loadCycleId_cell := loadCycleId_cell (comp w);
                memo_deps := memo_deps (comp w);
                memo_dom := memo_dom (comp w);
                ref := make_handle (memo_dom (comp w)) (comp w) |};
     log := log w; crashed := None |}.
Proof.
  intros Hc Hd. unfold step. rewrite Hc. unfold render.
  rewrite decide_True by done. by rewrite Hc.
Qed.

Lemma render_built w props :
  crashed w = None →
  initDOM_args props (loadCycleId_cell (comp w)) ≠ memo_deps (comp w) →
  let args := initDOM_args props (loadCycleId_cell (comp w)) in
  (∃ j, initDOM engine args =
          (pre_effects args ++ start_effects args (window j), Ok j)
        ∧ readyState j = Dom.loading_doc ∧ env j = args
        ∧ step engine w (Render props) =
          {| doms := doms w ++ [j];
             comp := {| backendState := backendState (comp w);
                        loadCycleId_cell := loadCycleId_cell (comp w);
                        memo_deps := args;
                        memo_dom := length (doms w);
                        ref := make_handle (length (doms w)) (comp w) |};
             log := log w ++ tag (length (doms w))
                      (pre_effects args ++ start_effects args (window j));
             crashed := None |})
  ∨ (∃ e, initDOM engine args = (pre_effects args, Throw e)
          ∧ step engine w (Render props) =
            {| doms := doms w; comp := comp w;
               log := log w ++ tag (length (doms w))
                        (pre_effects args ++ [Raised e]);
               crashed := Some e |}).
Proof.
  intros Hc Hd args. unfold step. rewrite Hc. unfold render.
  rewrite decide_False by done. fold args.
  destruct (initDOM_cases engine args) as [(j & E & Hrs & Henv)|(e & E)];
    rewrite E.
  - left. exists j. unfold perform. simpl. subst args.
    rewrite commit_initDOM. by rewrite Hc.
  - right. by exists e.
Qed.

(** X2. Rendering twice in a row with the same props is the same as
    rendering once: the second render finds every dependency unchanged,
    keeps the DOM, dispatches nothing and leaves the same handle. *)
Theorem X2_render_idempotent (w : World) (props : Props.DOMBackendProps) :
  step engine (step engine w (Render props)) (Render props)
  = step engine w (Render props).
Proof.
  destruct (crashed w) as [e|] eqn:Hc.
  { by rewrite !(step_crashed engine w _ e). }
  destruct (decide (initDOM_args props (loadCycleId_cell (comp w))
                    = memo_deps (comp w))) as [Hd|Hd].
  - rewrite (render_kept w props Hc Hd). by rewrite render_kept.
  - destruct (render_built w props Hc Hd) as [(j & _ & _ & _ & ->)|(e & _ & ->)].
    + by rewrite render_kept.
    + by rewrite (step_crashed engine _ _ e).
Qed.

(** X3. After a render with [props] in load cycle [n], the next render
    keeps the DOM, and dispatches nothing, if it gets the same props.
    If any prop differs, a handler that is another function included,
    the render builds one new DOM for the same load cycle [n], with its
    start dispatches, and makes it the DOM of the handle (unless its
    constructor throws); the status stays what it was. *)
Theorem X3_rebuild_on_change (props : Props.DOMBackendProps) (n : nat)
    (w : World) (props' : Props.DOMBackendProps) :
  settled props n w →
  let w' := step engine w (Render props') in
  (props' = props →
     doms w' = doms w ∧ log w' = log w ∧ settled props n w')
  ∧ (props' ≠ props → crashed w' = None →
     ∃ j, doms w' = doms w ++ [j]
          ∧ env j = initDOM_args props' n
          ∧ readyState j = Dom.loading_doc
          ∧ log w' = log w ++ tag (length (doms w))
                       (pre_effects (env j) ++ start_effects (env j) (window j))
          ∧ dom (ref (comp w')) = length (doms w)
          ∧ backendState (comp w') = backendState (comp w)
          ∧ settled props' n w').
Proof.
  intros (Hc & Hcell & Hdeps & Hcap) w'. subst w'. split.
  - intros ->. rewrite render_kept by (by rewrite ?Hcell).
    unfold settled. simpl. by rewrite Hcell.
  - intros Hne Hc'.
    destruct (render_built w props' Hc) as [(j & _ & Hrs & Henv & E)|(e & _ & E)].
    { rewrite Hcell, Hdeps. by intros [? _]%initDOM_args_inj. }
    2:{ by rewrite E in Hc'. }
    rewrite E. exists j. unfold settled. simpl.
    by rewrite Henv, Hcell.
Qed.

(** ** The handle between renders *)

Lemma perform_hooks d es w :
  ref (comp (perform d es w)) = ref (comp w)
  ∧ memo_dom (comp (perform d es w)) = memo_dom (comp w)
  ∧ memo_deps (comp (perform d es w)) = memo_deps (comp w).
Proof. unfold perform. simpl. destruct (commit_cells es (comp w)) as (-> & -> & ->). done. Qed.

Lemma run_on_hooks d rs (m : InitDOMParams → M unit) w :
  ref (comp (run_on d rs m w)) = ref (comp w)
  ∧ memo_dom (comp (run_on d rs m w)) = memo_dom (comp w)
  ∧ memo_deps (comp (run_on d rs m w)) = memo_deps (comp w).
Proof.
  unfold run_on. destruct (doms w !! d) as [j|]; [|done].
  destruct (m (env j) _) as [s r].
  exact (perform_hooks d _ (Build_World _ (comp w) _ _)).
Qed.

Lemma invoke_hooks h m w :
  ref (comp (invoke engine h m w)) = ref (comp w)
  ∧ memo_dom (comp (invoke engine h m w)) = memo_dom (comp w)
  ∧ memo_deps (comp (invoke engine h m w)) = memo_deps (comp w).
Proof.
  destruct m; try apply perform_hooks. simpl.
  destruct (captured_backendState h), (ready (dom h) w); simpl;
    try (repeat split; reflexivity).
  apply run_on_hooks.
Qed.

Lemma step_hooks w i :
  (∀ p, i ≠ Render p) →
  ref (comp (step engine w i)) = ref (comp w)
  ∧ memo_dom (comp (step engine w i)) = memo_dom (comp w)
  ∧ memo_deps (comp (step engine w i)) = memo_deps (comp w).
Proof.
  intros Hi. unfold step. destruct (crashed w); [done|].
  destruct i as [d|d|d ops|props|h m|m].
  - destruct (ready d w) as [[]|]; try (repeat split; reflexivity).
    apply run_on_hooks.
  - destruct (ready d w) as [[]|]; try (repeat split; reflexivity).
    apply run_on_hooks.
  - destruct (ready d w) as [rs|]; [apply run_on_hooks|done].
  - by destruct (Hi props).
  - apply invoke_hooks.
  - apply invoke_hooks.
Qed.


(** ** The constructor *)







(** ** Messages of a page *)

Lemma JSDOM_eta j :
  {| window := window j; readyState := readyState j; env := env j |} = j.
Proof. by destruct j. Qed.

Lemma step_PageScript w d j ops :
  crashed w = None → doms w !! d = Some j →
  truthy_bool (javaScriptEnabled (env j)) = true →
  step engine w (PageScript d ops) =
  let sr := exec_ops (env j) true ops {| st_window := window j; st_log := [] |} in
  {| doms := <[d := {| window := st_window sr.1; readyState := readyState j;
                       env := env j |}]> (doms w);
     comp := commit (st_log sr.1 ++ raised sr.2) (comp w);
     log := log w ++ tag d (st_log sr.1 ++ raised sr.2);
     crashed := None |}.
Proof.
  intros Hc Hj Hjs. unfold step, ready. rewrite Hc, Hj. simpl.
  unfold run_on. rewrite Hj, Hjs.
  destruct (exec_ops _ _ _ _) as [s r]. unfold perform. simpl. by rewrite Hc.
Qed.

(** X5. In a DOM built with scripts enabled and with the bridge in
    place, a page script that posts a string through either name gets it
    delivered: the supplied [onMessage] is called once, with the string
    as [data] and with the location and title the window has at that
    moment, and the window stays as it is.  A script that posts anything
    else stops there with the descriptive error: no callback is called,
    the operations that follow do not run, and the window is unchanged. *)
Theorem X5_messages_after_construction (w : World) (d : nat) (j : JSDOM)
    (v : Dom.jsval) (op : Dom.page_op) :
  crashed w = None →
  doms w !! d = Some j →
  truthy_bool (javaScriptEnabled (env j)) = true →
  Dom.postMessage (window j) = Dom.BridgePostMessage →
  Dom.ReactNativeWebView (window j) = Some Dom.BridgePostMessage →
  op = Dom.PostMessage v ∨ op = Dom.RNPostMessage v →
  (Dom.is_string v = false →
     ∀ rest,
       let w' := step engine w (PageScript d (op :: rest)) in
       doms w' = doms w
       ∧ log w' = log w ++
           [(d, Raised (Error "WebView: the argument of postMessage must be a string"))])
  ∧ (∀ m, v = Dom.JString m →
       let w' := step engine w (PageScript d [op]) in
       doms w' = doms w
       ∧ log w' = log w ++
           tag d (dispatch SlotMessage (onMessage (handlers (env j)))
                    (Wrapped (createNativeEvent
                       {| Event.url := Dom.href (Dom.location (window j));
                          title := Dom.title (Dom.document (window j));
                          loading := None; navigationType := None;
                          progress := None; data := Some m |})))).
Proof.
  intros Hc Hj Hjs Hb1 Hb2 Hop.
  assert (∀ s, st_window s = window j →
            exec_op (env j) true op s = postMessage (env j) true v s) as Hexec.
  { intros s Hs.
    destruct (bridge_names_agree (env j) true v s) as [H1 H2];
      [by rewrite Hs..|].
    by destruct Hop as [-> | ->]. }
  split.
  - intros Hv rest w'. subst w'. rewrite (step_PageScript _ _ _ _ Hc Hj Hjs).
    simpl. unfold bind. rewrite Hexec by done.
    rewrite postMessage_non_string by done. simpl.
    by rewrite JSDOM_eta, list_insert_id.
  - intros m -> w'. subst w'. rewrite (step_PageScript _ _ _ _ Hc Hj Hjs).
    simpl. unfold bind. rewrite Hexec by done.
    rewrite postMessage_string_bound. simpl.
    by rewrite JSDOM_eta, list_insert_id, app_nil_r.
Qed.

(** ** DOMs that were replaced *)

(** X10. A render never takes down a DOM: every DOM built before is
    still there afterwards, window, ready state and captured parameters
    unchanged, also when the render built a new DOM for new props.  So
    when the engine later fires [load] on such a replaced DOM, its
    listener still makes the four dispatches to the callbacks it captured
    when it was built. *)
Theorem X10_no_teardown (w : World) (props : Props.DOMBackendProps)
    (d : nat) (j : JSDOM) :
  doms w !! d = Some j →
  let w' := step engine w (Render props) in
  doms w' !! d = Some j
  ∧ (crashed w' = None → readyState j = Dom.interactive →
     log (step engine w' (FireLoad d))
     = log w' ++ tag d (load_effects (env j) (window j))).
Proof.
  intros Hj w'.
  assert (doms w' !! d = Some j) as Hj'.
  { subst w'. destruct (crashed w) as [e|] eqn:Hc.
    { by rewrite (step_crashed engine w _ e). }
    destruct (decide (initDOM_args props (loadCycleId_cell (comp w))
                      = memo_deps (comp w))) as [Hd|Hd].
    - by rewrite (render_kept w props Hc Hd).
    - destruct (render_built w props Hc Hd)
        as [(j' & _ & _ & _ & ->)|(e & _ & ->)]; simpl; [|done].
      by apply lookup_app_l_Some. }
  split; [done|]. intros Hc' Hrs.
  by rewrite (step_FireLoad engine w' d j Hc' Hj' Hrs).
Qed.

(** ** What [injectJavascript] leaves alone *)

Lemma run_on_doms d rs (m : InitDOMParams → M unit) w j :
  doms w !! d = Some j →
  ∃ wnd, doms (run_on d rs m w)
         = <[d := {| window := wnd; readyState := rs; env := env j |}]> (doms w).
Proof.
  intros Hj. unfold run_on. rewrite Hj.
  destruct (m (env j) _) as [s r]. by exists (st_window s).
Qed.

(** X11. In a world the component can reach, [injectJavascript], on any
    handle, changes no hook cell (neither the status nor the load cycle
    nor the memoised DOM), builds no DOM and does not crash the
    component; every DOM but the one of the handle is untouched, and the
    DOM of the handle keeps its ready state and its captured parameters:
    only its window can change. *)
Theorem X11_injectJavascript_frame (props : Props.DOMBackendProps)
    (ins : list input) (h : Handle) (script : string) :
  let w := run engine (mount engine props) ins in
  let w' := invoke engine h (InjectJavascript script) w in
  comp w' = comp w
  ∧ crashed w' = crashed w
  ∧ length (doms w') = length (doms w)
  ∧ (∀ d, d ≠ dom h → doms w' !! d = doms w !! d)
  ∧ (∀ j, doms w !! dom h = Some j →
       ∃ wnd, doms w' !! dom h
              = Some {| window := wnd; readyState := readyState j;
                        env := env j |}).
Proof.
  intros w w'. subst w'.
  pose proof (built_run engine props ins) as Hb. fold w in Hb.
  simpl. unfold ready.
  destruct (captured_backendState h) eqn:Hs.
  { repeat split; try done. intros j Hj. exists (window j).
    by rewrite JSDOM_eta. }
  destruct (doms w !! dom h) as [j|] eqn:Hj; simpl; [|by repeat split].
  destruct (run_on_doms (dom h) (readyState j)
              (λ p, window_eval engine p true script) w j Hj) as (wnd & Hd).
  split.
  { apply (run_on_script_comp _ _ j); [done|].
    destruct (Hb _ _ Hj) as (props' & n & ->). apply window_eval_emits. }
  split.
  { unfold run_on. rewrite Hj. by destruct (window_eval _ _ _ _ _). }
  rewrite Hd. split; [by rewrite length_insert|]. split.
  - intros d Hne. by rewrite list_lookup_insert_ne.
  - intros j' [= <-]. exists wnd.
    rewrite list_lookup_insert_eq by by eapply lookup_lt_Some. done.
Qed.

(** ** What is on screen during a reload *)

Lemma loaded_stable w ins :
  built w → backendState (comp w) = loaded →
  backendState (comp (run engine w ins)) = loaded.
Proof.
  intros Hb Hl.
  apply (run_ind engine (λ w, backendState (comp w) = loaded)); [|done|done].
  intros w1 w2 _ Hb1 H1 Ht.
  destruct (transition_status engine w1 w2 Ht Hb1) as [E|E]; congruence.
Qed.

Lemma commit_load_cell props n wnd c :
  loadCycleId_cell (commit (load_effects (initDOM_args props n) wnd) c)
  = loadCycleId_cell c.
Proof.
  unfold load_effects. simpl.
  destruct (onLoadProgress _), (onLoad _), (onLoadEnd _),
    (onNavigationStateChange _); reflexivity.
Qed.

Lemma render_handle w props :
  crashed (step engine w (Render props)) = None →
  ref (comp (step engine w (Render props)))
  = make_handle (memo_dom (comp (step engine w (Render props))))
      (comp (step engine w (Render props))).
Proof.
  intros Hc'. destruct (crashed w) as [e|] eqn:Hc.
  { rewrite (step_crashed engine w _ e) in Hc' by done. congruence. }
  destruct (decide (initDOM_args props (loadCycleId_cell (comp w))
                    = memo_deps (comp w))) as [Hd|Hd].
  - by rewrite (render_kept w props Hc Hd).
  - destruct (render_built w props Hc Hd)
      as [(j & _ & _ & _ & E)|(e & _ & E)]; rewrite E in Hc' |- *; done.
Qed.

Lemma reloads_snoc props n :
  reloads props (S n) = reloads props n ++ [InvokeCurrent Reload; Render props].
Proof.
  unfold reloads. by rewrite replicate_S_end, concat_app.
Qed.

(** The first load of a mounted page, to the end. *)
Lemma first_load props :
  crashed (mount engine props) = None →
  let w := run engine (mount engine props) [FireDOMContentLoaded 0; FireLoad 0] in
  settled props 0 w ∧ backendState (comp w) = loaded ∧ length (doms w) = 1
  ∧ ∃ es0 j0, initDOM engine (initDOM_args props 0) = (es0, Ok j0)
              ∧ readyState j0 = Dom.loading_doc.
Proof.
  intros Hc w.
  pose proof (built_mount engine props) as Hb.
  destruct (mount_cases engine props) as [(j0 & Em & Ei & Hrs & Henv)|(e & Em)];
    [|rewrite Em in Hc; done].
  assert (doms (mount engine props) !! 0 = Some j0) as Hj by by rewrite Em.
  destruct (step_FireDOMContentLoaded engine _ 0 j0 Hc Hb Hj Hrs)
    as (wnd & es & E1 & _).
  subst w. change (run engine ?x [?a; ?b]) with (step engine (step engine x a) b).
  rewrite E1.
  rewrite (step_FireLoad engine _ 0
             {| window := wnd; readyState := Dom.interactive; env := env j0 |});
    [|done| |done].
  2:{ simpl. rewrite Em. done. }
  simpl. rewrite Henv.
  split; [|split; [apply commit_load|split]].
  - split; [done|]. simpl. rewrite commit_load_cell.
    destruct (commit_cells
                (load_effects (initDOM_args props 0) wnd)
                (comp (mount engine props))) as (-> & _ & ->).
    by rewrite Em.
  - by rewrite !length_insert, Em.
  - eauto.
Qed.

(** X12. While a reload is under way the screen still shows the status
    loaded.  After the first load of a page and any number of reload
    rounds, each followed by its render, the view on screen is the one of
    the status loaded with the load cycle of the last round, although the
    DOM behind the handle is the one just built: its document is still
    loading, it was built for that load cycle, and no dispatch of the
    full-load sequence was ever made on its behalf. *)
Theorem X12_loaded_on_screen_while_reloading (props : Props.DOMBackendProps)
    (n : nat) :
  crashed (mount engine props) = None →
  let w := run engine (mount engine props)
             ([FireDOMContentLoaded 0; FireLoad 0] ++ reloads props (S n)) in
  rendered w = output loaded (S n)
  ∧ ∃ j, doms w !! dom (ref (comp w)) = Some j
         ∧ readyState j = Dom.loading_doc
         ∧ env j = initDOM_args props (S n)
         ∧ on_dom is_load_dispatch (dom (ref (comp w))) (log w) = [].
Proof.
  intros Hc w.
  pose proof (healthy_run engine props
                ([FireDOMContentLoaded 0; FireLoad 0] ++ reloads props (S n)))
    as Hh.
  fold w in Hh.
  destruct (first_load props Hc) as (Hs1 & Hl1 & Hlen1 & es0 & j0 & Ei & Hrs0).
  pose proof (built_run engine props [FireDOMContentLoaded 0; FireLoad 0]) as Hb1.
  assert (w = run engine (run engine (mount engine props)
                            [FireDOMContentLoaded 0; FireLoad 0])
                (reloads props (S n))) as Ew.
  { subst w. by rewrite run_app. }
  set (w1 := run engine (mount engine props)
               [FireDOMContentLoaded 0; FireLoad 0]) in *.
  destruct (reload_rounds engine props (S n) 0 w1 es0 j0 Hs1 Ei)
    as (Hs & new & Hd & Hlen & Hk).
  rewrite <- Ew in Hs, Hd. simpl in Hs.
  destruct Hs as (Hcw & Hcell & Hdeps & Hcap).
  destruct (Hh Hcw) as (_ & Hq & _ & Hdom & Hmd & j & Hj & Henv).
  assert (backendState (comp w) = loaded) as Hl.
  { rewrite Ew. by apply loaded_stable. }
  assert (captured_backendState (ref (comp w)) = loaded) as Hcs.
  { revert Hcw Hl. rewrite Ew, reloads_snoc, run_app.
    change (run engine ?x [?a; ?b]) with (step engine (step engine x a) b).
    intros Hcw Hl. rewrite render_handle by done. done. }
  split.
  { unfold rendered. by rewrite Hcs, Hcap. }
  rewrite Hdom. exists j.
  assert (readyState j = Dom.loading_doc) as Hrs.
  { assert (memo_dom (comp w) = length (doms w1) + n) as Em.
    { rewrite Hd, length_app, Hlen in Hmd. lia. }
    rewrite Hd, Em, lookup_app_r in Hj by lia.
    replace (length (doms w1) + n - length (doms w1)) with n in Hj by lia.
    destruct (Hk n) as (j' & Hj' & _ & Hrs'); [lia|].
    rewrite Hj' in Hj. injection Hj as <-. congruence. }
  split; [done|]. split; [done|]. split; [congruence|].
  apply (Hq _ j Hj). rewrite Hrs. done.
Qed.

(** ** The life of a DOM *)

Lemma ready_le_refl a : ready_le a a = true.
Proof. by destruct a. Qed.

Lemma ready_le_trans a b c :
  ready_le a b = true → ready_le b c = true → ready_le a c = true.
Proof. by destruct a, b, c. Qed.

(** X13. A DOM, once built, stays for good and only moves forward.
    Whatever happens to the component afterwards (events of any DOM,
    scripts, renders with any props, calls on any handle, a crash), the
    DOM is still at its index, with the parameters it captured when it
    was built, and its ready state is the one it had or a later one in
    the order loading, interactive, complete. *)
Theorem X13_doms_only_advance (props : Props.DOMBackendProps)
    (before after : list input) (d : nat) (j : JSDOM) :
  let w := run engine (mount engine props) before in
  doms w !! d = Some j →
  ∃ j', doms (run engine w after) !! d = Some j'
        ∧ env j' = env j
        ∧ ready_le (readyState j) (readyState j') = true.
Proof.
  intros w Hj.
  apply (run_ind engine
           (λ w', ∃ j', doms w' !! d = Some j' ∧ env j' = env j
                        ∧ ready_le (readyState j) (readyState j') = true)).
  - clear. intros w w' _ _ (j1 & Hj1 & Henv1 & Hle1) Ht.
    assert (∀ d0 j0 wnd rs,
              doms w !! d0 = Some j0 →
              ready_le (readyState j0) rs = true →
              ∃ j', <[d0 := {| window := wnd; readyState := rs;
                               env := env j0 |}]> (doms w) !! d = Some j'
                    ∧ env j' = env j
                    ∧ ready_le (readyState j) (readyState j') = true) as Hins.
    { intros d0 j0 wnd rs Hj0 Hle.
      destruct (decide (d0 = d)) as [-> |Hne].
      - eexists. rewrite list_lookup_insert_eq by by eapply lookup_lt_Some.
        split; [done|]. simpl. assert (j0 = j1) as -> by congruence.
        split; [done|]. by eapply ready_le_trans.
      - exists j1. by rewrite list_lookup_insert_ne. }
    destruct Ht as [|d0 j0 wnd rs es Hj0 Hes Hrs0|d0 j0 Hj0 Hrs0|d0 es Hes|
                    |props0 jn args _ _ Henv|props0 e args]; simpl; eauto.
    + apply (Hins d0 j0); [done|].
      destruct Hrs0 as [-> |[-> ->]]; [apply ready_le_refl|done].
    + apply (Hins d0 j0); [done|]. by rewrite Hrs0.
    + exists j1. split; [|done]. by apply lookup_app_l_Some.
  - apply built_run.
  - exists j. split; [done|]. split; [done|]. apply ready_le_refl.
Qed.

(** ** The load cycle *)

Lemma run_on_envs d rs (m : InitDOMParams → M unit) w :
  env <$> doms (run_on d rs m w) = env <$> doms w.
Proof.
  unfold run_on. destruct (doms w !! d) as [j|] eqn:Hj; [|done].
  destruct (m (env j) _) as [s r]. simpl. rewrite list_fmap_insert. simpl.
  apply list_insert_id. by rewrite list_lookup_fmap, Hj.
Qed.

Lemma invoke_envs h m w :
  env <$> doms (invoke engine h m w) = env <$> doms w.
Proof.
  destruct m; try done. simpl.
  destruct (captured_backendState h), (ready (dom h) w); try done.
  apply run_on_envs.
Qed.

Lemma step_envs w i :
  (∀ p, i ≠ Render p) → env <$> doms (step engine w i) = env <$> doms w.
Proof.
  intros Hi. unfold step. destruct (crashed w); [done|].
  destruct i as [d|d|d ops|props|h m|m].
  - destruct (ready d w) as [[]|]; try done. apply run_on_envs.
  - destruct (ready d w) as [[]|]; try done. apply run_on_envs.
  - destruct (ready d w) as [rs|]; [apply run_on_envs|done].
  - by destruct (Hi props).
  - apply invoke_envs.
  - apply invoke_envs.
Qed.

Lemma step_cycles w i :
  (∀ p, i ≠ Render p) → cycles (step engine w i) = cycles w.
Proof.
  intros Hi. unfold cycles.
  change (λ j, loadCycleId (env j)) with (loadCycleId ∘ env).
  by rewrite !list_fmap_compose, step_envs.
Qed.

Lemma ready_script_comp w d rs (m : InitDOMParams → M unit) :
  built w →
  (∀ props n, emits is_script_effect (m (initDOM_args props n))) →
  comp (run_on d rs m w) = comp w.
Proof.
  intros Hb Hm. destruct (doms w !! d) as [j|] eqn:Hj.
  - apply (run_on_script_comp _ _ j); [done|].
    destruct (Hb _ _ Hj) as (props & n & ->). apply Hm.
  - unfold run_on. by rewrite Hj.
Qed.

Lemma invoke_cell w h m :
  built w → m ≠ Reload →
  loadCycleId_cell (comp (invoke engine h m w)) = loadCycleId_cell (comp w).
Proof.
  intros Hb Hm. destruct m; try done. simpl.
  destruct (captured_backendState h), (ready (dom h) w); try done.
  rewrite ready_script_comp; [done|done|].
  intros props n. apply window_eval_emits.
Qed.

(** A step that is not a render leaves the load cycle alone, unless it
    is [reload] on the current handle, which asks for the cycle after the
    one the handle captured. *)
Lemma step_cell w i :
  built w → via_ref i = true → (∀ p, i ≠ Render p) →
  loadCycleId_cell (comp (step engine w i)) = loadCycleId_cell (comp w)
  ∨ loadCycleId_cell (comp (step engine w i))
    = S (captured_loadCycleId (ref (comp w))).
Proof.
  intros Hb Hv Hi. destruct (crashed w) as [e|] eqn:Hc.
  { left. by rewrite (step_crashed engine w i e). }
  destruct i as [d|d|d ops|props|h m|m].
  - left. unfold step. rewrite Hc.
    destruct (ready d w) as [[]|]; try done.
    rewrite ready_script_comp; [done|done|].
    intros props n. apply onDOMContentLoaded_emits.
  - left. unfold step, ready. rewrite Hc.
    destruct (doms w !! d) as [j|] eqn:Hj; [|done]. simpl.
    destruct (readyState j) eqn:Hrs; try done.
    pose proof (step_FireLoad engine w d j Hc Hj Hrs) as E.
    unfold step, ready in E. rewrite Hc, Hj in E. simpl in E.
    rewrite Hrs in E. rewrite E. simpl.
    destruct (Hb _ _ Hj) as (props & n & ->). apply commit_load_cell.
  - left. unfold step. rewrite Hc.
    destruct (ready d w) as [rs|]; [|done].
    rewrite ready_script_comp; [done|done|].
    intros props n. simpl. destruct (truthy_bool _).
    + apply exec_ops_emits.
    + apply emits_ret.
  - by destruct (Hi props).
  - left. unfold step. rewrite Hc. apply invoke_cell; [done|].
    intros ->. done.
  - unfold step. rewrite Hc.
    destruct m; try (left; by apply invoke_cell).
    right. simpl. apply Nat.add_1_r.
Qed.

Lemma cycles_aligned_mount props :
  crashed (mount engine props) = None → cycles_aligned (mount engine props).
Proof.
  intros Hc.
  destruct (mount_cases engine props) as [(j0 & Em & _ & _ & Henv)|(e & Em)];
    [|rewrite Em in Hc; done].
  rewrite Em. unfold cycles_aligned, cycles. simpl. rewrite Henv. simpl.
  split; [done|]. split; [by left|]. split.
  - intros d d' a b _ [-> <-]%list_lookup_singleton_Some
      [-> <-]%list_lookup_singleton_Some. done.
  - by apply Forall_singleton.
Qed.

Lemma cycles_aligned_step w i :
  via_ref i = true → built w → crashed (step engine w i) = None →
  cycles_aligned w → cycles_aligned (step engine w i).
Proof.
  intros Hv Hb Hc' (Hmid & Hcell & Hsort & Hbound).
  destruct (crashed w) as [e|] eqn:Hc.
  { by rewrite (step_crashed engine w i e). }
  assert ((∃ props, i = Render props) ∨ ∀ p, i ≠ Render p) as [[props ->]|Hi']
    by (destruct i; eauto).
  - destruct (decide (initDOM_args props (loadCycleId_cell (comp w))
                      = memo_deps (comp w))) as [Hd|Hd].
    + rewrite (render_kept w props Hc Hd).
      apply (f_equal loadCycleId) in Hd. simpl in Hd.
      unfold cycles_aligned, cycles. simpl.
      split; [congruence|]. split; [by left|]. split; [done|].
      replace (loadCycleId_cell (comp w))
        with (captured_loadCycleId (ref (comp w))) by congruence. done.
    + destruct (render_built w props Hc Hd)
        as [(j & _ & _ & Henv & E)|(e & _ & E)];
        [|rewrite E in Hc'; done].
      rewrite E. unfold cycles_aligned, cycles. simpl.
      rewrite fmap_app. simpl. rewrite Henv. simpl.
      assert (Forall (λ a, (a ≤ loadCycleId_cell (comp w))%nat) (cycles w)) as Hb'.
      { eapply Forall_impl; [exact Hbound|]. simpl. intros a Ha.
        destruct Hcell; lia. }
      split; [done|]. split; [by left|]. split.
      * intros d d' a b Hle [[Hl1 H1]|[E1 <-]]%lookup_snoc_Some
          [[Hl2 H2]|[E2 <-]]%lookup_snoc_Some.
        -- exact (Hsort d d' a b Hle H1 H2).
        -- exact (Forall_lookup_1 _ _ _ _ Hb' H1).
        -- lia.
        -- lia.
      * apply Forall_app. split; [done|]. by apply Forall_singleton.
  - destruct (step_hooks w i Hi') as (Href & _ & Hdeps).
    unfold cycles_aligned. rewrite Href, Hdeps, (step_cycles w i Hi').
    split; [done|]. split; [|done].
    destruct (step_cell w i Hb Hv Hi') as [-> | ->]; [done|by right].
Qed.

Lemma run_crashed ins : ∀ w e, crashed w = Some e → run engine w ins = w.
Proof.
  induction ins as [|i ins IH]; intros w e Hc; [done|].
  rewrite run_cons, (step_crashed engine w i e) by done. by eapply IH.
Qed.

Lemma cycles_aligned_run ins : ∀ w,
  Forall (λ i, via_ref i = true) ins → built w →
  crashed (run engine w ins) = None →
  cycles_aligned w → cycles_aligned (run engine w ins).
Proof.
  induction ins as [|i ins IH]; intros w Hv Hb Hc' Ha; [done|].
  apply Forall_cons in Hv as [Hi Hv].
  rewrite run_cons in Hc' |- *.
  assert (crashed (step engine w i) = None) as Hc1.
  { destruct (crashed (step engine w i)) as [e|] eqn:E; [|done].
    rewrite (run_crashed ins _ e E) in Hc'. congruence. }
  apply IH; [done| |done|by apply cycles_aligned_step].
  destruct (crashed w) as [e|] eqn:Hc.
  - by rewrite (step_crashed engine w i e).
  - eapply transition_built; [by apply step_transition|done].
Qed.

(** X8. As long as [reload] is only called on the handle that is in
    [ref.current] at the moment of the call, the load cycle advances one
    step at a time: at every moment of a run that has not crashed, the
    state cell holds the cycle the current handle captured or the one
    after it, the memoised dependencies are those of the captured cycle,
    the DOMs that were built are in the order of their load cycles, none
    of them is of a later cycle than the captured one, and the DOM behind
    the current handle is of exactly that cycle. *)
Theorem X8_load_cycle_advances (props : Props.DOMBackendProps)
    (ins : list input) :
  Forall (λ i, via_ref i = true) ins →
  let w := run engine (mount engine props) ins in
  crashed w = None →
  cycles_aligned w
  ∧ ∃ j, doms w !! dom (ref (comp w)) = Some j
         ∧ loadCycleId (env j) = captured_loadCycleId (ref (comp w)).
Proof.
  intros Hv w Hc.
  assert (crashed (mount engine props) = None) as Hc0.
  { destruct (crashed (mount engine props)) as [e|] eqn:E; [|done].
    subst w. rewrite (run_crashed ins _ e E) in Hc. congruence. }
  assert (cycles_aligned w) as Ha.
  { apply cycles_aligned_run; [done|apply built_mount|done|].
    by apply cycles_aligned_mount. }
  split; [done|].
  destruct (healthy_run engine props ins Hc) as (_ & _ & _ & Hd & _ & j & Hj & Henv).
  exists j. fold w in Hd, Hj, Henv. rewrite Hd. split; [done|].
  rewrite Henv. apply Ha.
Qed.

(** ** A first load, from the mount to the end *)




End Coverage.

(** ** The properties above at the demo page *)

Lemma X3_rebuild_on_change_witness :
  let w := mount demo_engine demo_props in
  doms (step demo_engine w (Render demo_props)) = doms w
  ∧ length (doms (step demo_engine w (Render quiet_props))) = 2.
Proof.
  intros w.
  assert (settled demo_props 0 w) as Hs by (repeat split; vm_compute; reflexivity).
  split.
  - destruct (X3_rebuild_on_change demo_engine demo_props 0 w demo_props Hs)
      as [H _].
    exact (proj1 (H eq_refl)).
  - destruct (X3_rebuild_on_change demo_engine demo_props 0 w quiet_props Hs)
      as [_ H].
    destruct H as (j & Hd & _).
    + intros E. apply (f_equal Props.javaScriptEnabled) in E. discriminate E.
    + vm_compute. reflexivity.
    + rewrite Hd. reflexivity.
Defined.


Lemma X5_messages_after_construction_witness :
  let w := run demo_engine (mount demo_engine demo_props)
             [FireDOMContentLoaded 0] in
  log (step demo_engine w
         (PageScript 0 [Dom.PostMessage (Dom.JNumber 42); Dom.SetTitle "x"]))
  = log w ++
    [(0, Raised (Error "WebView: the argument of postMessage must be a string"))]
  ∧ log (step demo_engine w (PageScript 0 [Dom.RNPostMessage (Dom.JString "hi")]))
    = log w ++
      [(0, Called SlotMessage 1
             (Wrapped (createNativeEvent
                {| Event.url := "https://example.org/"; title := "Home";
                   loading := None; navigationType := None; progress := None;
                   data := Some "hi" |})))].
Proof.
  intros w. split.
  - refine (proj2 (proj1
      (X5_messages_after_construction demo_engine w 0
         (demo_dom "Home" Dom.interactive) (Dom.JNumber 42)
         (Dom.PostMessage (Dom.JNumber 42)) _ _ _ _ _ (or_introl eq_refl))
      _ [Dom.SetTitle "x"]));
      vm_compute; reflexivity.
  - refine (proj2 (proj2
      (X5_messages_after_construction demo_engine w 0
         (demo_dom "Home" Dom.interactive) (Dom.JString "hi")
         (Dom.RNPostMessage (Dom.JString "hi")) _ _ _ _ _ (or_intror eq_refl))
      "hi" eq_refl));
      vm_compute; reflexivity.
Defined.



Lemma X8_load_cycle_advances_witness :
  cycles_aligned
    (run demo_engine (mount demo_engine demo_props)
       [FireDOMContentLoaded 0; FireLoad 0; Render demo_props;
        InvokeCurrent Reload; Render demo_props; InvokeCurrent Reload;
        Invoke {| dom := 0; captured_loadCycleId := 0;
                  captured_backendState := loaded |}
          (InjectJavascript "document.title = 'changed'")]).
Proof.
  refine (proj1 (X8_load_cycle_advances demo_engine demo_props _ _ _)).
  - repeat constructor.
  - vm_compute. reflexivity.
Defined.


Lemma X10_no_teardown_witness :
  let w := run demo_engine (mount demo_engine demo_props)
             [FireDOMContentLoaded 0] in
  let w' := step demo_engine w (Render quiet_props) in
  memo_dom (comp w') = 1
  ∧ doms w' !! 0 = Some (demo_dom "Home" Dom.interactive)
  ∧ log (step demo_engine w' (FireLoad 0))
    = log w' ++ tag 0 (load_effects (initDOM_args demo_props 0)
                         (demo_window "Home")).
Proof.
  intros w w'.
  destruct (X10_no_teardown demo_engine w quiet_props 0
              (demo_dom "Home" Dom.interactive)) as [H1 H2].
  - vm_compute. reflexivity.
  - split; [vm_compute; reflexivity|]. split; [exact H1|].
    apply H2; vm_compute; reflexivity.
Defined.

Lemma X11_injectJavascript_frame_witness :
  let w := run demo_engine (mount demo_engine demo_props)
             [FireDOMContentLoaded 0; FireLoad 0; Render demo_props] in
  let w' := invoke demo_engine (ref (comp w))
              (InjectJavascript "window.postMessage(42)") w in
  comp w' = comp w ∧ crashed w' = None ∧ log w' ≠ log w.
Proof.
  intros w w'.
  destruct (X11_injectJavascript_frame demo_engine demo_props
              [FireDOMContentLoaded 0; FireLoad 0; Render demo_props]
              (ref (comp w)) "window.postMessage(42)") as (H1 & H2 & _).
  split; [exact H1|].
  split; [etrans; [exact H2|vm_compute; reflexivity]|].
  vm_compute. intros E. discriminate E.
Defined.

Lemma X12_loaded_on_screen_while_reloading_witness :
  testID_of
    (rendered (run demo_engine (mount demo_engine demo_props)
                 ([FireDOMContentLoaded 0; FireLoad 0] ++ reloads demo_props 2)))
  = "backend-loaded-2".
Proof.
  destruct (X12_loaded_on_screen_while_reloading demo_engine demo_props 1)
    as [H _]; [vm_compute; reflexivity|].
  rewrite H. vm_compute. reflexivity.
Defined.

Lemma X13_doms_only_advance_witness :
  ∃ j', doms (run demo_engine (run demo_engine (mount demo_engine demo_props) [])
                [FireDOMContentLoaded 0; FireLoad 0; Render quiet_props]) !! 0
        = Some j'
        ∧ env j' = env (demo_dom "Home" Dom.loading_doc)
        ∧ ready_le (readyState (demo_dom "Home" Dom.loading_doc)) (readyState j')
          = true.
Proof.
  apply (X13_doms_only_advance demo_engine demo_props []
           [FireDOMContentLoaded 0; FireLoad 0; Render quiet_props] 0
           (demo_dom "Home" Dom.loading_doc)).
  vm_compute. reflexivity.
Defined.
